(** * pgsql-dbus: the PostgreSQL / D-Bus bridge of [pgsql-dbus.c]

    A shallow embedding of the type mapper [oid_to_signature], of the value
    encoder [sd_bus_message_append_pgsql_value] and of the two method
    handlers [method_ping] and [method_query], followed by the properties
    the specification states about them.

    The handlers talk to two libraries, libpq and sd-bus.  Their calls are
    recorded in an explicit world (a trace of outward calls, the reply
    message under construction and the [context] the handlers receive as
    [userdata]); what the libraries answer is read from an environment. *)

From Stdlib Require Import ZArith List Bool Ascii String Lia.
From Stdlib Require Import DecimalString DecimalPos.
Import ListNotations.

Local Open Scope Z_scope.

(* ================================================================== *)
(** * Column type identifiers                                          *)
(* ================================================================== *)

(** [Oid] is libpq's [unsigned int]. *)
Definition Oid := Z.

(** The case labels of the two switches come from PostgreSQL's
    [server/catalog/pg_type_d.h], which is not part of the repository: they
    are taken as parameters.  A C switch does not compile with two equal
    case labels, hence [case_labels]. *)
Class pg_type_d : Type := {
  BOOLOID : Oid;
  INT2OID : Oid;
  OIDOID : Oid;
  INT4OID : Oid;
  INT8OID : Oid;
  FLOAT4OID : Oid;
  FLOAT8OID : Oid;
  XMLOID : Oid;
  JSONOID : Oid;
  VARCHAROID : Oid;
  BPCHAROID : Oid;
  NAMEOID : Oid;
  TEXTOID : Oid;
  case_labels :
    NoDup [BOOLOID; INT2OID; OIDOID; INT4OID; INT8OID; FLOAT4OID; FLOAT8OID;
           XMLOID; JSONOID; VARCHAROID; BPCHAROID; NAMEOID; TEXTOID]
}.

(** [strtol] returns a [long], whose width [<limits.h>] fixes; the C
    standard guarantees at least 32 bits. *)
Class limits_h : Type := {
  LONG_BIT : Z;
  LONG_BIT_min : 32 <= LONG_BIT
}.

(** The wire type tags of the specification and their D-Bus type codes. *)
Inductive WireTypeTag : Type :=
| TagBoolean
| TagInt16
| TagInt32
| TagInt64
| TagDouble
| TagString.

Definition tag_code (t : WireTypeTag) : ascii :=
  match t with
  | TagBoolean => "b"
  | TagInt16 => "n"
  | TagInt32 => "i"
  | TagInt64 => "x"
  | TagDouble => "d"
  | TagString => "s"
  end%char.

Section TypeMapper.
Context {T : pg_type_d}.

(** The column types either switch names. *)
Definition known_oids : list Oid :=
  [BOOLOID; INT2OID; OIDOID; INT4OID; INT8OID; FLOAT4OID; FLOAT8OID;
   XMLOID; JSONOID; VARCHAROID; BPCHAROID; NAMEOID; TEXTOID].

(** The text-like column types (the last case group of both switches). *)
Definition text_oids : list Oid :=
  [XMLOID; JSONOID; VARCHAROID; BPCHAROID; NAMEOID; TEXTOID].

(** The integer column types of the encoder's switch. *)
Definition integer_oids : list Oid := [INT2OID; OIDOID; INT4OID; INT8OID].

(** [oid_to_signature], lines 33-55. *)
Definition oid_to_signature (oid : Oid) : ascii :=
  if oid =? BOOLOID then "b"%char
  else if oid =? INT2OID then "n"%char
  else if (oid =? OIDOID) || (oid =? INT4OID) then "i"%char
  else if oid =? INT8OID then "x"%char
  else if (oid =? FLOAT4OID) || (oid =? FLOAT8OID) then "d"%char
  else if (oid =? XMLOID) || (oid =? JSONOID) || (oid =? VARCHAROID)
          || (oid =? BPCHAROID) || (oid =? NAMEOID) || (oid =? TEXTOID)
       then "s"%char
  else "s"%char.

End TypeMapper.

(* ================================================================== *)
(** * C strings and the conversions of libc                            *)
(* ================================================================== *)

(** A [char *] that points to a NUL-terminated string is a [string]; a
    [char *] that may be [NULL] is an [option string]. *)

Definition code (c : ascii) : Z := Z.of_nat (nat_of_ascii c).

(** [*value] for a valid string: its first character, or the terminating
    NUL when the string is empty. *)
Definition first_char (value : string) : ascii :=
  match value with
  | EmptyString => zero
  | String c _ => c
  end.

(** [isspace] and [isdigit] in the "C" locale. *)
Definition isspace (c : ascii) : bool :=
  (code c =? 32) || ((9 <=? code c) && (code c <=? 13)).

Definition isdigit (c : ascii) : bool :=
  (48 <=? code c) && (code c <=? 57).

Fixpoint skip_space (s : string) : string :=
  match s with
  | EmptyString => s
  | String c r => if isspace c then skip_space r else s
  end.

(** The digits at the head of [s], accumulated in base 10; the scan stops
    at the first character that is not a digit. *)
Fixpoint scan_digits (s : string) (acc : Z) : Z :=
  match s with
  | EmptyString => acc
  | String c r =>
      if isdigit c then scan_digits r (10 * acc + (code c - 48)) else acc
  end.

(** [strtol(nptr, NULL, 10)] for a result type of [bits] bits: white space,
    an optional sign, the longest run of digits (the value is 0 when there
    is none), and a result outside the type clamped to its bounds.  The end
    pointer is [NULL] in every call of the program and [errno] is never
    read. *)
Definition strto (bits : Z) (nptr : string) : Z :=
  let s := skip_space nptr in
  let '(negative, s) :=
    match s with
    | String c r =>
        if Ascii.eqb c "-" then (true, r)
        else if Ascii.eqb c "+" then (false, r)
        else (false, s)
    | EmptyString => (false, s)
    end in
  let v := scan_digits s 0 in
  let v := if negative : bool then - v else v in
  if v <? - 2 ^ (bits - 1) then - 2 ^ (bits - 1)
  else if 2 ^ (bits - 1) - 1 <? v then 2 ^ (bits - 1) - 1
  else v.

Definition strtol {L : limits_h} (nptr : string) : Z := strto LONG_BIT nptr.

(** [long long] is 64 bits wide. *)
Definition strtoll (nptr : string) : Z := strto 64 nptr.

(** The casts [(int16_t)], [(int32_t)] and [(int64_t)]: reduction modulo
    [2^bits] into the signed range. *)
Definition to_signed (bits : Z) (x : Z) : Z :=
  (x + 2 ^ (bits - 1)) mod 2 ^ bits - 2 ^ (bits - 1).

Definition int16_t : Z -> Z := to_signed 16.
Definition int32_t : Z -> Z := to_signed 32.
Definition int64_t : Z -> Z := to_signed 64.

(** [sprintf(port, "%d", n)]. *)
Definition sprintf_d (n : Z) : string := NilZero.string_of_int (Z.to_int n).

(** The line feed of the format strings. *)
Definition LF : string := String (ascii_of_nat 10) EmptyString.

(* ================================================================== *)
(** * libpq and sd-bus objects                                         *)
(* ================================================================== *)

(** [struct context], lines 28-31. *)
Record context : Type := {
  host : string;
  port : Z
}.

Inductive PGPing : Type :=
| PQPING_OK
| PQPING_REJECT
| PQPING_NO_RESPONSE
| PQPING_NO_ATTEMPT
| PQPING_other (rc : Z).

(** The two states of a connection that [PQconnectdbParams] returns. *)
Inductive ConnStatusType : Type :=
| CONNECTION_OK
| CONNECTION_BAD.

Inductive ExecStatusType : Type :=
| PGRES_EMPTY_QUERY
| PGRES_COMMAND_OK
| PGRES_TUPLES_OK
| PGRES_COPY_OUT
| PGRES_COPY_IN
| PGRES_BAD_RESPONSE
| PGRES_NONFATAL_ERROR
| PGRES_FATAL_ERROR.

(** What [PQstatus] and [PQerrorMessage] read from a [PGconn]. *)
Record PGconn : Type := {
  status : ConnStatusType;
  errorMessage : string
}.

(** What the program reads from a [PGresult]: its status, its columns
    (name and type) and its rows of textual values. *)
Record PGresult : Type := {
  resultStatus : ExecStatusType;
  attDescs : list (string * Oid);
  tuples : list (list string)
}.

Definition PQnfields (res : PGresult) : nat := List.length (attDescs res).

(** [InvalidOid], the answer of [PQftype] for a column out of range. *)
Definition InvalidOid : Oid := 0.

Definition PQftype (res : PGresult) (i : nat) : Oid :=
  match nth_error (attDescs res) i with
  | Some (_, oid) => oid
  | None => InvalidOid
  end.

(** [PQfname] and [PQgetvalue] answer [NULL] out of range. *)
Definition PQfname (res : PGresult) (i : nat) : option string :=
  match nth_error (attDescs res) i with
  | Some (name, _) => Some name
  | None => None
  end.

Definition PQgetvalue (res : PGresult) (row col : nat) : option string :=
  match nth_error (tuples res) row with
  | Some r => nth_error r col
  | None => None
  end.

(** The C object handed to [sd_bus_message_append_basic]. *)
Inductive basic : Type :=
| Int (b : Z)
| Int16 (s : Z)
| Int32 (i : Z)
| Int64 (q : Z)
| Double (nptr : string)      (* the double [strtod] reads from [nptr] *)
| Str (value : option string).

(** A message under construction is the sequence of the calls that built
    it. *)
Inductive msg_op : Type :=
| open_container (type : ascii) (contents : string)
| append_s (s : option string)
| append_basic (type : ascii) (p : basic)
| close_container.

Definition sd_bus_message : Type := list msg_op.

(** An argument of an incoming method call: its D-Bus type code and its
    content. *)
Inductive argument : Type :=
| Arg (type : ascii) (content : string).

Definition method_call : Type := list argument.

Definition SD_BUS_ERROR_INVALID_ARGS : string :=
  "org.freedesktop.DBus.Error.InvalidArgs"%string.

(** The calls that leave the process, in the order they are made. *)
Inductive event : Type :=
| stderr_line (line : string)
| pq_ping (host port : string)
| pq_connectdb (host port : string)
| pq_exec (query : string)
| pq_clear
| pq_finish
| bus_reply_error (name message : string)
| bus_reply_return (types : option string) (q : option PGPing)
| bus_send (reply : option sd_bus_message).

(** What the two libraries answer. *)
Record environment : Type := {
  PQping_answer : string -> string -> PGPing;
  PQconnect_answer : string -> string -> PGconn;
  PQexec_answer : string -> PGresult * string;
  sd_bus_answer : nat -> Z
}.

(** The state a handler works on: the [context] behind [userdata], the
    calls made so far (oldest first), the message [reply] points to
    ([None] while it is [NULL]) and the number of sd-bus calls made, which
    indexes their return codes in the environment. *)
Record world : Type := {
  userdata : context;
  trace : list event;
  reply : option sd_bus_message;
  sd_bus_calls : nat
}.

(* ================================================================== *)
(** * Control flow                                                     *)
(* ================================================================== *)

(** A statement either falls through with a value, leaves the function
    with [return rc], or reads through a [NULL] pointer. *)
Inductive outcome (A : Type) : Type :=
| Next (a : A)
| Return (rc : Z)
| Fault.

Arguments Next {A} a.
Arguments Return {A} rc.
Arguments Fault {A}.

Definition M (A : Type) : Type := environment -> world -> outcome A * world.

Definition ret {A : Type} (a : A) : M A := fun _ w => (Next a, w).

Definition bind {A B : Type} (m : M A) (k : A -> M B) : M B :=
  fun e w =>
    match m e w with
    | (Next a, w') => k a e w'
    | (Return rc, w') => (Return rc, w')
    | (Fault, w') => (Fault, w')
    end.

Definition return_ {A : Type} (rc : Z) : M A := fun _ w => (Return rc, w).

Definition fault {A : Type} : M A := fun _ w => (Fault, w).

Notation "x <- m ;; k" := (bind m (fun x => k))
  (at level 61, m at next level, right associativity).
Notation "m ;; k" := (bind m (fun _ => k))
  (at level 61, right associativity).

(** [if (rc < 0) return rc;] *)
Definition check (rc : Z) : M unit :=
  if rc <? 0 then return_ rc else ret tt.

(** Reading through a [char *]. *)
Definition c_str (p : option string) : M string :=
  match p with
  | Some s => ret s
  | None => fault
  end.

Definition emit (ev : event) : M unit :=
  fun _ w =>
    (Next tt,
     {| userdata := userdata w;
        trace := trace w ++ [ev];
        reply := reply w;
        sd_bus_calls := sd_bus_calls w |}).

Definition get_userdata : M context := fun _ w => (Next (userdata w), w).

(** What a library answers. *)
Definition ask {A : Type} (answer : environment -> A) : M A :=
  fun e w => (Next (answer e), w).

(** ** libc and libpq *)

Definition fprintf_stderr (line : string) : M unit := emit (stderr_line line).

Definition PQpingParams (h p : string) : M PGPing :=
  emit (pq_ping h p);; ask (fun e => PQping_answer e h p).

Definition PQconnectdbParams (h p : string) : M PGconn :=
  emit (pq_connectdb h p);; ask (fun e => PQconnect_answer e h p).

(** [PQexec] yields the result; the second component is what
    [PQerrorMessage(conn)] reads afterwards. *)
Definition PQexec (query : string) : M (PGresult * string) :=
  emit (pq_exec query);; ask (fun e => PQexec_answer e query).

Definition PQclear : M unit := emit pq_clear.

Definition PQfinish : M unit := emit pq_finish.

(** ** sd-bus *)

(** Every sd-bus call is recorded and answers the return code the
    environment holds for it. *)
Definition sd_bus_call (tr : list event) (msg : option sd_bus_message -> option sd_bus_message) : M Z :=
  fun e w =>
    (Next (sd_bus_answer e (sd_bus_calls w)),
     {| userdata := userdata w;
        trace := trace w ++ tr;
        reply := msg (reply w);
        sd_bus_calls := S (sd_bus_calls w) |}).

Definition build (op : msg_op) (r : option sd_bus_message) : option sd_bus_message :=
  match r with
  | Some ops => Some (ops ++ [op])
  | None => None
  end.

Definition ENXIO : Z := 6.

(** [sd_bus_message_read(m, "s", &query)]: the next argument of [m] when it
    is a string, a negative code otherwise. *)
Definition sd_bus_message_read_s (m : method_call) : Z * option string :=
  match m with
  | Arg type content :: _ =>
      if Ascii.eqb type "s" then (1, Some content) else (- ENXIO, None)
  | [] => (- ENXIO, None)
  end.

Definition sd_bus_reply_method_errorf (name message : string) : M Z :=
  sd_bus_call [bus_reply_error name message] (fun r => r).

Definition sd_bus_reply_method_return (types : option string) (q : option PGPing) : M Z :=
  sd_bus_call [bus_reply_return types q] (fun r => r).

(** [sd_bus_message_new_method_return(m, &reply)]: when it succeeds
    [reply] points to a new, empty message; when it fails [reply] is left
    as it was. *)
Definition sd_bus_message_new_method_return : M Z :=
  fun e w =>
    sd_bus_call []
      (fun r => if sd_bus_answer e (sd_bus_calls w) <? 0 then r else Some [])
      e w.

Definition sd_bus_message_open_container (type : ascii) (contents : string) : M Z :=
  sd_bus_call [] (build (open_container type contents)).

Definition sd_bus_message_append_s (s : option string) : M Z :=
  sd_bus_call [] (build (append_s s)).

Definition sd_bus_message_append_basic (type : ascii) (p : basic) : M Z :=
  sd_bus_call [] (build (append_basic type p)).

Definition sd_bus_message_close_container : M Z :=
  sd_bus_call [] (build close_container).

Definition sd_bus_send : M Z :=
  fun e w => sd_bus_call [bus_send (reply w)] (fun r => r) e w.

(** [sd_bus_message *reply = NULL;] *)
Definition reply_NULL : M unit :=
  fun _ w =>
    (Next tt,
     {| userdata := userdata w;
        trace := trace w;
        reply := None;
        sd_bus_calls := sd_bus_calls w |}).

(** The writable properties of [instance_vtable], lines 260-271: sd-bus
    stores the value a client writes at the member's offset in
    [userdata]. *)
Inductive property : Type :=
| Port (q : Z)
| Host (s : string).

Definition property_set (p : property) (w : world) : world :=
  {| userdata :=
       match p with
       | Port q => {| host := host (userdata w); port := q mod 2 ^ 16 |}
       | Host s => {| host := s; port := port (userdata w) |}
       end;
     trace := trace w;
     reply := reply w;
     sd_bus_calls := sd_bus_calls w |}.

(* ================================================================== *)
(** * The value encoder and the handlers                               *)
(* ================================================================== *)

Section Handlers.
Context {T : pg_type_d} {L : limits_h}.

(** [sd_bus_message_append_pgsql_value], lines 57-103. *)
Definition sd_bus_message_append_pgsql_value
    (sig : ascii) (oid : Oid) (value : option string) : M Z :=
  if oid =? BOOLOID then
    v <- c_str value;;
    let b := if Ascii.eqb (first_char v) "t" then 1 else 0 in
    sd_bus_message_append_basic sig (Int b)
  else if oid =? INT2OID then
    v <- c_str value;;
    let s := int16_t (strtol v) in
    sd_bus_message_append_basic sig (Int16 s)
  else if (oid =? OIDOID) || (oid =? INT4OID) then
    v <- c_str value;;
    let i := int32_t (strtol v) in
    sd_bus_message_append_basic sig (Int32 i)
  else if oid =? INT8OID then
    v <- c_str value;;
    let q := int64_t (strtoll v) in
    sd_bus_message_append_basic sig (Int64 q)
  else if (oid =? FLOAT4OID) || (oid =? FLOAT8OID) then
    v <- c_str value;;
    sd_bus_message_append_basic sig (Double v)
  else if (oid =? XMLOID) || (oid =? JSONOID) || (oid =? VARCHAROID)
          || (oid =? BPCHAROID) || (oid =? NAMEOID) || (oid =? TEXTOID) then
    sd_bus_message_append_basic sig (Str value)
  else ret (-1).

(** [method_ping], lines 105-139. *)
Definition method_ping (m : method_call) : M Z :=
  c <- get_userdata;;
  let port := sprintf_d (port c) in
  rc <- PQpingParams (host c) port;;
  match rc with
  | PQPING_OK => fprintf_stderr ("accepting connections" ++ LF)%string
  | PQPING_REJECT => fprintf_stderr ("rejecting connections" ++ LF)%string
  | PQPING_NO_RESPONSE => fprintf_stderr ("no response" ++ LF)%string
  | PQPING_NO_ATTEMPT => fprintf_stderr ("no attempt" ++ LF)%string
  | PQPING_other _ => fprintf_stderr ("unknown" ++ LF)%string
  end;;
  r <- sd_bus_reply_method_return (Some "q"%string) (Some rc);;
  return_ r.

(** One turn of the loop of lines 198-229. *)
Definition append_field (res : PGresult) (i : nat) : M unit :=
  let oid := PQftype res i in
  let sig := oid_to_signature oid in
  rc <- sd_bus_message_open_container "e" "sv"%string;;
  check rc;;
  rc <- sd_bus_message_append_s (PQfname res i);;
  check rc;;
  rc <- sd_bus_message_open_container "v" (String sig EmptyString);;
  check rc;;
  rc <- sd_bus_message_append_pgsql_value sig oid (PQgetvalue res 0 i);;
  check rc;;
  rc <- sd_bus_message_close_container;;
  check rc;;
  rc <- sd_bus_message_close_container;;
  check rc.

(** [for (i = ...; i < nFields; i++)] with [n = nFields - i] turns left. *)
Fixpoint append_fields (res : PGresult) (i n : nat) : M unit :=
  match n with
  | O => ret tt
  | S n' => append_field res i;; append_fields res (S i) n'
  end.

(** The label [end], lines 241-242. *)
Definition goto_end : M Z :=
  rc <- sd_bus_reply_method_return None None;;
  return_ rc.

(** [method_query], lines 142-243.  [keys], [vals] and [port] are the
    parameters handed to [PQconnectdbParams]; [sd_bus_message_get_bus]
    only reads [m]. *)
Definition method_query (m : method_call) : M Z :=
  c <- get_userdata;;
  reply_NULL;;
  let '(rc, query) := sd_bus_message_read_s m in
  if rc <? 0 then
    r <- sd_bus_reply_method_errorf SD_BUS_ERROR_INVALID_ARGS
           "Expected interface parameter"%string;;
    return_ r
  else
    query <- c_str query;;
    let port := sprintf_d (port c) in
    fprintf_stderr ("connecting to host: " ++ host c ++ ", port: " ++ port ++ LF)%string;;
    conn <- PQconnectdbParams (host c) port;;
    match status conn with
    | CONNECTION_BAD =>
        fprintf_stderr ("Connection to database failed: " ++ errorMessage conn)%string;;
        PQfinish;;
        goto_end
    | CONNECTION_OK =>
        r <- PQexec query;;
        let '(res, message) := r in
        match resultStatus res with
        | PGRES_TUPLES_OK =>
            fprintf_stderr ("query succeed!" ++ LF)%string;;
            let nFields := PQnfields res in
            rc <- sd_bus_message_new_method_return;;
            check rc;;
            rc <- sd_bus_message_open_container "a" "{sv}"%string;;
            check rc;;
            append_fields res 0 nFields;;
            rc <- sd_bus_message_close_container;;
            check rc;;
            PQclear;;
            PQfinish;;
            rc <- sd_bus_send;;
            return_ rc
        | _ =>
            fprintf_stderr ("query failed: " ++ message)%string;;
            PQclear;;
            PQfinish;;
            goto_end
        end
    end.

End Handlers.

(* ================================================================== *)
(** * sd-bus around the handlers                                       *)
(* ================================================================== *)

(** A method of a vtable: its name, the signature of its arguments, the
    signature of its result and its handler ([SD_BUS_METHOD]). *)
Record vtable_method : Type := {
  member : string;
  signature : string;
  result : string;
  handler : method_call -> M Z
}.

Section Vtable.
Context {T : pg_type_d} {L : limits_h}.

(** The two methods of [instance_vtable], lines 248-259; the [NULL]
    signature of [Ping] is the empty signature. *)
Definition Ping_method : vtable_method :=
  {| member := "Ping"; signature := ""; result := "q";
     handler := method_ping |}.

Definition Query_method : vtable_method :=
  {| member := "Query"; signature := "s"; result := "a{sv}";
     handler := method_query |}.

Definition instance_vtable : list vtable_method :=
  [Ping_method; Query_method].

End Vtable.

(** The interface the vtable is installed under, line 296. *)
Definition interface : string := "org.postgresql.instance".

(** The signature of a method call: the type codes of its arguments. *)
Fixpoint signature_of (m : method_call) : string :=
  match m with
  | [] => EmptyString
  | Arg type _ :: rest => String type (signature_of rest)
  end.

(** [ENOMSG] of [<errno.h>] on Linux: the code sd-bus answers when it is
    asked to send a method return whose signature is not the result
    signature the vtable declares for the method. *)
Definition ENOMSG : Z := 42.

(** The text of the error sd-bus sends for arguments that do not have
    the signature of the method. *)
Definition invalid_arguments (c : vtable_method) (m : method_call) : string :=
  ("Invalid arguments '" ++ signature_of m ++ "' to call "
   ++ interface ++ "." ++ member c ++ "(), expecting '"
   ++ signature c ++ "'.")%string.

Section Dispatch.

(** The name and the text sd-bus gives the error of an [errno]. *)
Variable bus_error : Z -> string * string.

(** [sd_bus_reply_method_errno(m, r, NULL)]. *)
Definition sd_bus_reply_method_errno (r : Z) : M Z :=
  sd_bus_reply_method_errorf
    (fst (bus_error (Z.abs r))) (snd (bus_error (Z.abs r))).

(** [bus_maybe_reply_error] of libsystemd: a negative code returned by a
    handler is answered with an error reply. *)
Definition bus_maybe_reply_error (r : Z) : M Z :=
  if r <? 0 then sd_bus_reply_method_errno r;; return_ 1 else return_ r.

(** [method_callbacks_run] of libsystemd, for a method whose access
    check passes ([SD_BUS_VTABLE_UNPRIVILEGED]): arguments that do not
    have the signature of the method are answered with [InvalidArgs] and
    the handler is not called; otherwise the handler runs and its code
    goes through [bus_maybe_reply_error]. *)
Definition method_callbacks_run (c : vtable_method) (m : method_call) : M Z :=
  if String.eqb (signature c) (signature_of m) then
    fun e w =>
      match handler c m e w with
      | (Next r, w') => bus_maybe_reply_error r e w'
      | (Return r, w') => bus_maybe_reply_error r e w'
      | (Fault, w') => (Fault, w')
      end
  else
    r <- sd_bus_reply_method_errorf SD_BUS_ERROR_INVALID_ARGS
           (invalid_arguments c m);;
    return_ r.

End Dispatch.

(* ================================================================== *)
(** * The notions the properties are stated with *)
(* ================================================================== *)

(** A well-formed base-10 signed integer: an optional sign and one digit
    or more.  Its value is the positional value of the digits, most
    significant first. *)
Inductive Sign : Type :=
| Unsigned
| Positive
| Negative.

Definition sign_text (sg : Sign) : string :=
  match sg with
  | Unsigned => ""
  | Positive => "+"
  | Negative => "-"
  end%string.

Definition signed (sg : Sign) (v : Z) : Z :=
  match sg with
  | Negative => - v
  | _ => v
  end.

Fixpoint all_digits (s : string) : bool :=
  match s with
  | EmptyString => true
  | String c r => isdigit c && all_digits r
  end.

Fixpoint decimal_value (s : string) : Z :=
  match s with
  | EmptyString => 0
  | String c r => (code c - 48) * 10 ^ Z.of_nat (String.length r) + decimal_value r
  end.

(** White space only. *)
Fixpoint all_space (s : string) : bool :=
  match s with
  | EmptyString => true
  | String c r => isspace c && all_space r
  end.

(** What may follow the digits: nothing, or text that does not begin with
    a digit. *)
Definition trailing (rest : string) : Prop :=
  match rest with
  | EmptyString => True
  | String c _ => isdigit c = false
  end.

Definition in_range (bits : Z) (z : Z) : Prop :=
  - 2 ^ (bits - 1) <= z <= 2 ^ (bits - 1) - 1.

(** A text that begins with the character [c]. *)
Definition begins_with (c : ascii) (value : string) : Prop :=
  exists rest : string, value = String c rest.

(** The only error reply a handler may send is [InvalidArgs]. *)
Definition expected (ev : event) : Prop :=
  match ev with
  | bus_reply_error name _ => name = SD_BUS_ERROR_INVALID_ARGS
  | _ => True
  end.

(** [w'] comes after [w]: the context is the same and the trace has
    grown by expected calls. *)
Definition extends (w w' : world) : Prop :=
  userdata w' = userdata w /\
  exists new : list event,
    trace w' = (trace w ++ new)%list /\ Forall expected new.

Definition sound {A : Type} (m : M A) : Prop :=
  forall (e : environment) (w : world), extends w (snd (m e w)).

(** The line [method_query] logs before it connects. *)
Definition connecting (c : context) : event :=
  stderr_line ("connecting to host: " ++ host c ++ ", port: "
               ++ sprintf_d (port c) ++ LF)%string.

(** The calls into libpq among the calls of a trace. *)
Definition is_pq (ev : event) : bool :=
  match ev with
  | pq_ping _ _ | pq_connectdb _ _ | pq_exec _ | pq_clear | pq_finish => true
  | _ => false
  end.

Definition pq_calls (tr : list event) : list event := filter is_pq tr.

(** A message whose next argument cannot be read as a string: there is
    none, or it has another type. *)
Definition no_string_argument (m : method_call) : Prop :=
  m = [] \/
  exists (type : ascii) (content : string) (rest : method_call),
    m = Arg type content :: rest /\ type <> "s"%char.

(** The connections opened and not yet finished, and the results
    obtained and not yet cleared, along a trace. *)
Definition count (f : event -> bool) (tr : list event) : Z :=
  Z.of_nat (List.length (filter f tr)).

Definition connections_open (tr : list event) : Z :=
  count (fun ev => match ev with pq_connectdb _ _ => true | _ => false end) tr
  - count (fun ev => match ev with pq_finish => true | _ => false end) tr.

Definition results_open (tr : list event) : Z :=
  count (fun ev => match ev with pq_exec _ => true | _ => false end) tr
  - count (fun ev => match ev with pq_clear => true | _ => false end) tr.

(** The messages handed to [sd_bus_send] along a trace. *)
Fixpoint sent (tr : list event) : list (option sd_bus_message) :=
  match tr with
  | [] => []
  | bus_send r :: tr' => r :: sent tr'
  | _ :: tr' => sent tr'
  end.

(** The reply that holds an array of dictionary entries and no entry. *)
Definition empty_mapping : sd_bus_message :=
  [open_container "a" "{sv}"; close_container].

(* ================================================================== *)
(** * A concrete platform                                              *)
(* ================================================================== *)

(** The type identifiers of PostgreSQL's catalog and the LP64 data model
    of 64-bit Linux, for the concrete runs below. *)
Module Postgres.

(** [numeric], a column type neither switch names. *)
Definition NUMERICOID : Oid := 1700.

#[export] Instance catalog : pg_type_d := {|
  BOOLOID := 16;
  INT2OID := 21;
  OIDOID := 26;
  INT4OID := 23;
  INT8OID := 20;
  FLOAT4OID := 700;
  FLOAT8OID := 701;
  XMLOID := 142;
  JSONOID := 114;
  VARCHAROID := 1043;
  BPCHAROID := 1042;
  NAMEOID := 19;
  TEXTOID := 25;
  case_labels := ltac:(repeat (constructor; [cbn [In]; lia |]); constructor)
|}.

#[export] Instance lp64 : limits_h := {|
  LONG_BIT := 64;
  LONG_BIT_min := ltac:(lia)
|}.

(** The context [main] sets up, lines 282-283. *)
Definition main_context : context := {| host := "/tmp"; port := 15433 |}.

Definition start : world :=
  {| userdata := main_context; trace := []; reply := None; sd_bus_calls := 0 |}.

(** A server that accepts the connection, answers the queries below and
    rejects every other one; every sd-bus call succeeds. *)
Definition server : environment := {|
  PQping_answer := fun _ _ => PQPING_OK;
  PQconnect_answer := fun _ _ => {| status := CONNECTION_OK; errorMessage := "" |};
  PQexec_answer := fun query =>
    if String.eqb query "SELECT 10::int2 AS blah" then
      ({| resultStatus := PGRES_TUPLES_OK;
          attDescs := [("blah"%string, 21)];
          tuples := [["10"%string]] |}, ""%string)
    else if String.eqb query "SELECT 'x' AS t, true AS b" then
      ({| resultStatus := PGRES_TUPLES_OK;
          attDescs := [("t"%string, 25); ("b"%string, 16)];
          tuples := [["x"%string; "t"%string]] |}, ""%string)
    else if String.eqb query "SELECT 1.5::numeric AS n" then
      ({| resultStatus := PGRES_TUPLES_OK;
          attDescs := [("n"%string, NUMERICOID)];
          tuples := [["1.5"%string]] |}, ""%string)
    else if String.eqb query "SELECT 'x'::text AS t WHERE false" then
      ({| resultStatus := PGRES_TUPLES_OK;
          attDescs := [("t"%string, 25)];
          tuples := [] |}, ""%string)
    else if String.eqb query "SELECT true AS b WHERE false" then
      ({| resultStatus := PGRES_TUPLES_OK;
          attDescs := [("b"%string, 16)];
          tuples := [] |}, ""%string)
    else
      ({| resultStatus := PGRES_FATAL_ERROR;
          attDescs := [];
          tuples := [] |}, "ERROR:  syntax error"%string);
  sd_bus_answer := fun _ => 0
|}.

(** The same server while sd-bus cannot allocate: every sd-bus call
    answers [-ENOMEM]. *)
Definition out_of_memory : environment := {|
  PQping_answer := PQping_answer server;
  PQconnect_answer := PQconnect_answer server;
  PQexec_answer := PQexec_answer server;
  sd_bus_answer := fun _ => -12
|}.

(** The same server behind the vtable, for a request that fails softly:
    the first sd-bus call of the handler is then the method return
    without arguments, whose empty signature is not the ["a{sv}"] that
    [instance_vtable] declares for [Query]; sd-bus answers [-ENOMSG]. *)
Definition refusing : environment := {|
  PQping_answer := PQping_answer server;
  PQconnect_answer := PQconnect_answer server;
  PQexec_answer := PQexec_answer server;
  sd_bus_answer := fun n => match n with O => - ENOMSG | _ => 0 end
|}.

End Postgres.

(* ================================================================== *)
(** * Further notions: values, replies and paths                       *)
(* ================================================================== *)

(** The C type sd-bus reads behind the pointer of
    [sd_bus_message_append_basic] for each type code: [int] for a
    boolean, [int16_t], [int32_t], [int64_t], [double], [char *]. *)
Definition payload_tag (p : basic) : WireTypeTag :=
  match p with
  | Int _ => TagBoolean
  | Int16 _ => TagInt16
  | Int32 _ => TagInt32
  | Int64 _ => TagInt64
  | Double _ => TagDouble
  | Str _ => TagString
  end.

(** A text without any digit. *)
Fixpoint no_digit (s : string) : bool :=
  match s with
  | EmptyString => true
  | String c r => negb (isdigit c) && no_digit r
  end.

Section Scalars.
Context {T : pg_type_d} {L : limits_h}.

(** The object each case of the encoder's switch computes from a text
    before it calls [sd_bus_message_append_basic]; [None] in the default
    case. *)
Definition scalar (oid : Oid) (text : string) : option basic :=
  if oid =? BOOLOID then
    Some (Int (if Ascii.eqb (first_char text) "t" then 1 else 0))
  else if oid =? INT2OID then Some (Int16 (int16_t (strtol text)))
  else if (oid =? OIDOID) || (oid =? INT4OID) then
    Some (Int32 (int32_t (strtol text)))
  else if oid =? INT8OID then Some (Int64 (int64_t (strtoll text)))
  else if (oid =? FLOAT4OID) || (oid =? FLOAT8OID) then Some (Double text)
  else if (oid =? XMLOID) || (oid =? JSONOID) || (oid =? VARCHAROID)
          || (oid =? BPCHAROID) || (oid =? NAMEOID) || (oid =? TEXTOID) then
    Some (Str (Some text))
  else None.

End Scalars.

(** [check_port_texts n p] tests that the [n] integers from [p] on are
    printed by ["%d"] in at most five characters. *)
Fixpoint check_port_texts (n : nat) (p : Z) : bool :=
  match n with
  | O => true
  | S n' => (String.length (sprintf_d p) <=? 5)%nat
            && check_port_texts n' (p + 1)
  end.

(** A step that makes no outward call: it leaves the trace as it is. *)
Definition quiet {A : Type} (m : M A) : Prop :=
  forall (e : environment) (w : world), trace (snd (m e w)) = trace w.

(** The calls that answer the method call. *)
Definition is_reply (ev : event) : bool :=
  match ev with
  | bus_reply_error _ _ | bus_reply_return _ _ | bus_send _ => true
  | _ => false
  end.

Section Replies.
Context {T : pg_type_d} {L : limits_h}.

(** What one turn of the loop of [method_query] appends to the reply for
    a column [name] of type [oid] whose value in row 0 is [text]: the
    dictionary entry, its key, the variant and, when the encoder has a
    case for [oid], the value and the two closings. *)
Definition entry (name : string) (oid : Oid) (text : string) : list msg_op :=
  let sig := oid_to_signature oid in
  [open_container "e" "sv"; append_s (Some name);
   open_container "v" (String sig EmptyString)]
  ++ match scalar oid text with
     | Some p => [append_basic sig p; close_container; close_container]
     | None => []
     end.

Definition entries (cols : list (string * Oid)) (row : list string) :
    list msg_op :=
  flat_map (fun cr => entry (fst (fst cr)) (snd (fst cr)) (snd cr))
    (combine cols row).

(** The array of dictionary entries for the columns [cols] and the
    values [row]. *)
Definition mapping (cols : list (string * Oid)) (row : list string) :
    sd_bus_message :=
  open_container "a" "{sv}" :: entries cols row ++ [close_container].

End Replies.

(** A result cut down to its first row, and a server that answers every
    query with such a result. *)
Definition first_row (res : PGresult) : PGresult :=
  {| resultStatus := resultStatus res;
     attDescs := attDescs res;
     tuples := firstn 1 (tuples res) |}.

Definition first_row_only (e : environment) : environment :=
  {| PQping_answer := PQping_answer e;
     PQconnect_answer := PQconnect_answer e;
     PQexec_answer := fun query =>
       (first_row (fst (PQexec_answer e query)), snd (PQexec_answer e query));
     sd_bus_answer := sd_bus_answer e |}.

Section Phases.
Context {T : pg_type_d} {L : limits_h}.

(** The two phases of [method_query] after a successful query: the reply
    is built (lines 190-233), then the result and the connection are
    released and the reply is sent (lines 235-239). *)
Definition build_reply (res : PGresult) : M unit :=
  rc <- sd_bus_message_new_method_return;;
  check rc;;
  rc <- sd_bus_message_open_container "a" "{sv}"%string;;
  check rc;;
  append_fields res 0 (PQnfields res);;
  rc <- sd_bus_message_close_container;;
  check rc.

Definition release_and_send : M Z :=
  PQclear;;
  PQfinish;;
  rc <- sd_bus_send;;
  return_ rc.

(** The world of [method_query] once the query has succeeded (line 186). *)
Definition queried (w : world) (query : string) : world :=
  {| userdata := userdata w;
     trace := trace w ++
              [connecting (userdata w);
               pq_connectdb (host (userdata w)) (sprintf_d (port (userdata w)));
               pq_exec query;
               stderr_line ("query succeed!" ++ LF)%string];
     reply := None;
     sd_bus_calls := sd_bus_calls w |}.

End Phases.

(** The world after [calls] more sd-bus calls that appended [ops] to the
    reply. *)
Definition built (w : world) (ops : list msg_op) (calls : nat) : world :=
  {| userdata := userdata w;
     trace := trace w;
     reply := match reply w with
              | Some r => Some (r ++ ops)
              | None => None
              end;
     sd_bus_calls := calls + sd_bus_calls w |}.

(** The world after a successful [sd_bus_message_new_method_return]. *)
Definition replying (w : world) : world :=
  {| userdata := userdata w;
     trace := trace w;
     reply := Some [];
     sd_bus_calls := S (sd_bus_calls w) |}.

(** The column types whose case reads the value as a string of
    characters before it calls sd-bus. *)
Definition parsed_oids {T : pg_type_d} : list Oid :=
  [BOOLOID; INT2OID; OIDOID; INT4OID; INT8OID; FLOAT4OID; FLOAT8OID].

(** Row 0 of a result; empty when the result has no row. *)
Definition row0 (res : PGresult) : list string := hd [] (tuples res).

(** A step that reads nothing of the environment but the return codes
    of sd-bus. *)
Definition bus_only {A : Type} (m : M A) : Prop :=
  forall (e e' : environment) (w : world),
    (forall n : nat, sd_bus_answer e' n = sd_bus_answer e n) ->
    m e' w = m e w.

(* ================================================================== *)
(** * [main]                                                           *)
(* ================================================================== *)

Inductive exit_status : Type :=
| EXIT_SUCCESS
| EXIT_FAILURE.

(** The calls of [main], lines 276-334.  [call_fprintf_strerror format n]
    is [fprintf(stderr, format, strerror(n))]. *)
Inductive main_call : Type :=
| call_sd_bus_open_user
| call_sd_bus_add_object_vtable (path interface : string) (userdata : context)
| call_sd_bus_request_name (name : string)
| call_sd_bus_process
| call_sd_bus_wait
| call_sd_bus_slot_unref
| call_sd_bus_unref
| call_fprintf_strerror (format : string) (errnum : Z).

(** The label [finish], lines 329-333. *)
Definition finish (rc : Z) (tr : list main_call) :
    exit_status * list main_call :=
  (if rc <? 0 then EXIT_FAILURE else EXIT_SUCCESS,
   tr ++ [call_sd_bus_slot_unref; call_sd_bus_unref]).

(** The loop of lines 311-327, for at most [fuel] turns; [None] when the
    loop is still running after them.  [answer k] is the return code of
    the [k]-th sd-bus call whose code [main] reads; what
    [sd_bus_process] does to serve a request happens inside that call. *)
Fixpoint event_loop (answer : nat -> Z) (fuel k : nat) (tr : list main_call) :
    option (exit_status * list main_call) :=
  match fuel with
  | O => None
  | S fuel' =>
      let rc := answer k in
      let tr := tr ++ [call_sd_bus_process] in
      if rc <? 0 then
        Some (finish rc
                (tr ++ [call_fprintf_strerror
                          ("Failed to process bus: %s" ++ LF) (- rc)]))
      else if 0 <? rc then event_loop answer fuel' (S k) tr
      else
        let rc := answer (S k) in
        let tr := tr ++ [call_sd_bus_wait] in
        if rc <? 0 then
          Some (finish rc
                  (tr ++ [call_fprintf_strerror
                            ("Failed to wait on bus: %s" ++ LF) (- rc)]))
        else event_loop answer fuel' (S (S k)) tr
  end.

Definition main (answer : nat -> Z) (fuel : nat) :
    option (exit_status * list main_call) :=
  let c := {| host := "/tmp"; port := 15433 |} in
  let rc := answer 0%nat in
  let tr := [call_sd_bus_open_user] in
  if rc <? 0 then
    Some (finish rc
            (tr ++ [call_fprintf_strerror
                      ("Failed to connect to system bus: %s" ++ LF) (- rc)]))
  else
    let rc := answer 1%nat in
    let tr := tr ++ [call_sd_bus_add_object_vtable
                       "/org/postgresql/instance" "org.postgresql.instance" c] in
    if rc <? 0 then
      Some (finish rc
              (tr ++ [call_fprintf_strerror
                        ("Failed to issue method call: %s" ++ LF) (- rc)]))
    else
      let rc := answer 2%nat in
      let tr := tr ++ [call_sd_bus_request_name "org.postgresql.instance"] in
      if rc <? 0 then
        Some (finish rc
                (tr ++ [call_fprintf_strerror
                          ("Failed to acquire service name: %s" ++ LF) (- rc)]))
      else event_loop answer fuel 3 tr.

(** [main] has returned: it has logged a reason and released the slot
    and the bus. *)
Definition finished (tr : list main_call) : Prop :=
  exists (body : list main_call) (format : string) (errnum : Z),
    tr = (body ++ [call_fprintf_strerror format errnum;
                   call_sd_bus_slot_unref; call_sd_bus_unref])%list /\
    0 < errnum /\
    ~ In call_sd_bus_slot_unref body /\
    ~ In call_sd_bus_unref body.

(** A server for further runs: it answers a query with three columns,
    the second of a type that no case names, a query with two rows and a
    query without columns. *)
Module Examples.

Definition server : environment := {|
  PQping_answer := fun _ _ => PQPING_NO_RESPONSE;
  PQconnect_answer := fun _ _ => {| status := CONNECTION_OK; errorMessage := "" |};
  PQexec_answer := fun query =>
    if String.eqb query "SELECT 7 AS a, 1.5::numeric AS n, 'x' AS t" then
      ({| resultStatus := PGRES_TUPLES_OK;
          attDescs := [("a"%string, 23); ("n"%string, 1700); ("t"%string, 25)];
          tuples := [["7"%string; "1.5"%string; "x"%string]] |}, ""%string)
    else if String.eqb query "SELECT 7 AS a, 'x' AS t FROM generate_series(1, 2)" then
      ({| resultStatus := PGRES_TUPLES_OK;
          attDescs := [("a"%string, 23); ("t"%string, 25)];
          tuples := [["7"%string; "x"%string]; ["7"%string; "x"%string]] |},
       ""%string)
    else if String.eqb query "SELECT" then
      ({| resultStatus := PGRES_TUPLES_OK;
          attDescs := [];
          tuples := [[]] |}, ""%string)
    else
      ({| resultStatus := PGRES_FATAL_ERROR;
          attDescs := [];
          tuples := [] |}, "ERROR:  syntax error"%string);
  sd_bus_answer := fun _ => 0
|}.

(** The bus answers: everything succeeds, the loop serves one request,
    waits, and the next [sd_bus_process] fails with [-ECONNRESET]. *)
Definition bus (k : nat) : Z :=
  match k with
  | 3%nat => 1
  | 6%nat => -104
  | _ => 0
  end.

End Examples.

(* ================================================================== *)
(** * Case labels *)
(* ================================================================== *)

(** Runs through the tests of a switch on [oid]. *)
Ltac switch_cases :=
  repeat match goal with
         | |- context [?a =? ?b] =>
             destruct (Z.eqb_spec a b); cbn [orb]; cbv iota
         end.

Section Labels.
Context {T : pg_type_d}.

Lemma label_neq (i j : nat) (a b : Oid) :
  nth_error known_oids i = Some a ->
  nth_error known_oids j = Some b ->
  i <> j -> a <> b.
Proof.
  intros Hi Hj Hij Hab; subst b; apply Hij.
  apply (proj1 (NoDup_nth_error known_oids) case_labels).
  - apply nth_error_Some; congruence.
  - congruence.
Qed.

End Labels.

(** The position of a case label in [known_oids]. *)
Ltac label_index x :=
  lazymatch x with
  | @BOOLOID _ => constr:(0%nat)
  | @INT2OID _ => constr:(1%nat)
  | @OIDOID _ => constr:(2%nat)
  | @INT4OID _ => constr:(3%nat)
  | @INT8OID _ => constr:(4%nat)
  | @FLOAT4OID _ => constr:(5%nat)
  | @FLOAT8OID _ => constr:(6%nat)
  | @XMLOID _ => constr:(7%nat)
  | @JSONOID _ => constr:(8%nat)
  | @VARCHAROID _ => constr:(9%nat)
  | @BPCHAROID _ => constr:(10%nat)
  | @NAMEOID _ => constr:(11%nat)
  | @TEXTOID _ => constr:(12%nat)
  end.

(** Closes a branch in which two different case labels are equal. *)
Ltac label_clash :=
  exfalso;
  match goal with
  | H : ?a = ?b |- _ =>
      let i := label_index a in
      let j := label_index b in
      exact (label_neq i j a b eq_refl eq_refl ltac:(discriminate) H)
  end.

(** Decides a switch whose scrutinee is itself a case label. *)
Ltac switch_at_label :=
  switch_cases; first [reflexivity | congruence | label_clash].

(** Closes a branch of a switch on an [oid] outside [known_oids]. *)
Ltac not_a_label Hout :=
  exfalso; apply Hout; subst; cbn [In];
  repeat first [left; reflexivity | right].

Section TypeMapperFacts.
Context {T : pg_type_d}.

Lemma oid_to_signature_default (oid : Oid) :
  ~ In oid known_oids -> oid_to_signature oid = tag_code TagString.
Proof.
  unfold known_oids, oid_to_signature; intros Hout.
  switch_cases; first [reflexivity | not_a_label Hout].
Qed.

Lemma oid_to_signature_text (oid : Oid) :
  In oid text_oids -> oid_to_signature oid = tag_code TagString.
Proof.
  unfold text_oids, oid_to_signature; cbn [In]; intros Hin.
  repeat (destruct Hin as [<- | Hin]); try contradiction; switch_at_label.
Qed.

End TypeMapperFacts.

(* ================================================================== *)
(** * The type mapper                                                  *)
(* ================================================================== *)

Section TypeMapperTable.
Context {T : pg_type_d}.

(** C5. [oid_to_signature] (the specification's [mapType]) is a total
    function that follows the mapping table: boolean to the boolean tag,
    the 16-bit integer to int16, the 32-bit integer and the object
    identifier to int32, the 64-bit integer to int64, both floats to
    double, xml, json, varchar, bpchar, name and text to string, and every
    identifier outside this domain to string. *)
Theorem oid_to_signature_table :
  oid_to_signature BOOLOID = tag_code TagBoolean /\
  oid_to_signature INT2OID = tag_code TagInt16 /\
  oid_to_signature INT4OID = tag_code TagInt32 /\
  oid_to_signature OIDOID = tag_code TagInt32 /\
  oid_to_signature INT8OID = tag_code TagInt64 /\
  oid_to_signature FLOAT4OID = tag_code TagDouble /\
  oid_to_signature FLOAT8OID = tag_code TagDouble /\
  (forall oid : Oid, In oid text_oids ->
     oid_to_signature oid = tag_code TagString) /\
  (forall oid : Oid, ~ In oid known_oids ->
     oid_to_signature oid = tag_code TagString).
Proof.
  repeat split;
    try (unfold oid_to_signature; switch_at_label).
  - apply oid_to_signature_text.
  - apply oid_to_signature_default.
Qed.

End TypeMapperTable.

(** The table on PostgreSQL's identifiers: [bool] is boolean, [varchar]
    is a string, and [numeric], which no case names, is a string. *)
Lemma oid_to_signature_table_witness :
  oid_to_signature (T := Postgres.catalog) 16 = "b"%char /\
  oid_to_signature (T := Postgres.catalog) 1043 = "s"%char /\
  oid_to_signature (T := Postgres.catalog) Postgres.NUMERICOID = "s"%char.
Proof.
  pose proof (@oid_to_signature_table Postgres.catalog) as Htable.
  destruct Htable as (Hbool & _ & _ & _ & _ & _ & _ & Htext & Hdefault).
  split; [exact Hbool | split].
  - apply Htext. cbv. tauto.
  - apply Hdefault. cbv. intuition discriminate.
Defined.

(* ================================================================== *)
(** * Integer texts *)
(* ================================================================== *)

Lemma scan_digits_value (digits rest : string) (acc : Z) :
  all_digits digits = true ->
  trailing rest ->
  scan_digits (digits ++ rest) acc =
  acc * 10 ^ Z.of_nat (String.length digits) + decimal_value digits.
Proof.
  intros Hdigits Hrest; revert acc; induction digits as [| c r IH]; intros acc.
  - cbn. destruct rest as [| c r]; cbn in *.
    + lia.
    + rewrite Hrest; lia.
  - cbn [all_digits] in Hdigits. apply andb_prop in Hdigits as [Hc Hr].
    cbn [append scan_digits decimal_value String.length]. rewrite Hc, (IH Hr).
    rewrite Nat2Z.inj_succ, Z.pow_succ_r by lia. ring.
Qed.

Lemma isdigit_not_space (c : ascii) : isdigit c = true -> isspace c = false.
Proof. unfold isdigit, isspace; lia. Qed.

Lemma isdigit_not_sign (c : ascii) :
  isdigit c = true -> Ascii.eqb c "-" = false /\ Ascii.eqb c "+" = false.
Proof.
  intros Hc; split; apply Ascii.eqb_neq; intros ->; discriminate Hc.
Qed.

Lemma skip_space_leading (ws s : string) :
  all_space ws = true -> skip_space (ws ++ s) = skip_space s.
Proof.
  induction ws as [| c r IH]; cbn [all_space append skip_space]; intros Hws.
  - reflexivity.
  - apply andb_prop in Hws as [Hc Hr]. rewrite Hc. exact (IH Hr).
Qed.

Lemma strto_leading_space (bits : Z) (ws s : string) :
  all_space ws = true -> strto bits (ws ++ s) = strto bits s.
Proof. intros Hws. unfold strto. rewrite skip_space_leading by assumption. reflexivity. Qed.

(** [strtol] on an integer text followed by trailing text reads the
    integer, clamped to the result type. *)
Lemma strto_integer (bits : Z) (sg : Sign) (digits rest : string) :
  digits <> EmptyString ->
  all_digits digits = true ->
  trailing rest ->
  let v := signed sg (decimal_value digits) in
  strto bits (sign_text sg ++ digits ++ rest) =
  if v <? - 2 ^ (bits - 1) then - 2 ^ (bits - 1)
  else if 2 ^ (bits - 1) - 1 <? v then 2 ^ (bits - 1) - 1
  else v.
Proof.
  intros Hne Hdigits Hrest v; subst v.
  destruct digits as [| c r]; [contradiction |].
  pose proof Hdigits as Hc; cbn [all_digits] in Hc.
  apply andb_prop in Hc as [Hc _].
  destruct (isdigit_not_sign c Hc) as [Hminus Hplus].
  pose proof (isdigit_not_space c Hc) as Hspace.
  unfold strto; destruct sg; cbn [sign_text append skip_space signed].
  - rewrite Hspace, Hminus, Hplus.
    change (String c (r ++ rest)) with (String c r ++ rest)%string.
    rewrite scan_digits_value by assumption. reflexivity.
  - change (isspace "+") with false; cbv iota.
    change (Ascii.eqb "+" "-") with false; change (Ascii.eqb "+" "+") with true.
    cbv iota.
    change (String c (r ++ rest)) with (String c r ++ rest)%string.
    rewrite scan_digits_value by assumption. reflexivity.
  - change (isspace "-") with false; cbv iota.
    change (Ascii.eqb "-" "-") with true; cbv iota.
    change (String c (r ++ rest)) with (String c r ++ rest)%string.
    rewrite scan_digits_value by assumption. reflexivity.
Qed.

Lemma strto_in_range (bits : Z) (sg : Sign) (digits rest : string) :
  digits <> EmptyString ->
  all_digits digits = true ->
  trailing rest ->
  in_range bits (signed sg (decimal_value digits)) ->
  strto bits (sign_text sg ++ digits ++ rest) = signed sg (decimal_value digits).
Proof.
  intros Hne Hdigits Hrest Hrange.
  rewrite strto_integer by assumption. unfold in_range in Hrange.
  cbv zeta.
  destruct (Z.ltb_spec (signed sg (decimal_value digits)) (- 2 ^ (bits - 1))); [lia |].
  destruct (Z.ltb_spec (2 ^ (bits - 1) - 1) (signed sg (decimal_value digits))); [lia |].
  reflexivity.
Qed.

Lemma to_signed_in_range (bits z : Z) :
  0 < bits -> in_range bits z -> to_signed bits z = z.
Proof.
  unfold in_range, to_signed; intros Hbits Hz.
  replace (2 ^ bits) with (2 * 2 ^ (bits - 1)).
  - rewrite Z.mod_small; lia.
  - rewrite <- Z.pow_succ_r by lia. f_equal; lia.
Qed.

Lemma in_range_mono (b1 b2 z : Z) :
  0 < b1 <= b2 -> in_range b1 z -> in_range b2 z.
Proof.
  unfold in_range; intros Hb Hz.
  assert (2 ^ (b1 - 1) <= 2 ^ (b2 - 1)) by (apply Z.pow_le_mono_r; lia).
  lia.
Qed.


(* ================================================================== *)
(** * The value encoder                                                *)
(* ================================================================== *)

Lemma bind_c_str {A : Type} (s : string) (k : string -> M A) :
  bind (c_str (Some s)) k = k s.
Proof. reflexivity. Qed.

Lemma append_empty (s : string) : (s ++ "")%string = s.
Proof. induction s as [| c r IH]; cbn; [| rewrite IH]; reflexivity. Qed.

Lemma first_char_t (value : string) :
  Ascii.eqb (first_char value) "t" = true <-> begins_with "t" value.
Proof.
  destruct value as [| c rest]; cbn [first_char].
  - split; [discriminate | intros [r H]; discriminate H].
  - rewrite Ascii.eqb_eq; split.
    + intros ->; exists rest; reflexivity.
    + intros [r H]; injection H as H _; exact H.
Qed.

Section Encoder.
Context {T : pg_type_d} {L : limits_h}.

(** ** The switch, case by case *)

Lemma encoder_BOOLOID (sig : ascii) (value : option string) :
  sd_bus_message_append_pgsql_value sig BOOLOID value =
  (v <- c_str value;;
   sd_bus_message_append_basic sig
     (Int (if Ascii.eqb (first_char v) "t" then 1 else 0))).
Proof. unfold sd_bus_message_append_pgsql_value; switch_at_label. Qed.

Lemma encoder_INT2OID (sig : ascii) (value : option string) :
  sd_bus_message_append_pgsql_value sig INT2OID value =
  (v <- c_str value;;
   sd_bus_message_append_basic sig (Int16 (int16_t (strtol v)))).
Proof. unfold sd_bus_message_append_pgsql_value; switch_at_label. Qed.

Lemma encoder_OIDOID (sig : ascii) (value : option string) :
  sd_bus_message_append_pgsql_value sig OIDOID value =
  (v <- c_str value;;
   sd_bus_message_append_basic sig (Int32 (int32_t (strtol v)))).
Proof. unfold sd_bus_message_append_pgsql_value; switch_at_label. Qed.

Lemma encoder_INT4OID (sig : ascii) (value : option string) :
  sd_bus_message_append_pgsql_value sig INT4OID value =
  (v <- c_str value;;
   sd_bus_message_append_basic sig (Int32 (int32_t (strtol v)))).
Proof. unfold sd_bus_message_append_pgsql_value; switch_at_label. Qed.

Lemma encoder_INT8OID (sig : ascii) (value : option string) :
  sd_bus_message_append_pgsql_value sig INT8OID value =
  (v <- c_str value;;
   sd_bus_message_append_basic sig (Int64 (int64_t (strtoll v)))).
Proof. unfold sd_bus_message_append_pgsql_value; switch_at_label. Qed.

Lemma encoder_text (sig : ascii) (oid : Oid) (value : option string) :
  In oid text_oids ->
  sd_bus_message_append_pgsql_value sig oid value =
  sd_bus_message_append_basic sig (Str value).
Proof.
  unfold text_oids, sd_bus_message_append_pgsql_value; cbn [In]; intros Hin.
  repeat (destruct Hin as [<- | Hin]); try contradiction; switch_at_label.
Qed.

Lemma encoder_default (sig : ascii) (oid : Oid) (value : option string) :
  ~ In oid known_oids ->
  sd_bus_message_append_pgsql_value sig oid value = ret (-1).
Proof.
  unfold known_oids, sd_bus_message_append_pgsql_value; intros Hout.
  switch_cases; first [reflexivity | not_a_label Hout].
Qed.

(** ** Booleans *)

(** C7. Boolean encoding hands sd-bus the C truth value [1] when the
    text begins with the character [t] and [0] for every other text, the
    empty one included; it takes no other path, so it has no error of its
    own. *)
Theorem boolean_encoding (sig : ascii) (value : string) :
  exists b : Z,
    sd_bus_message_append_pgsql_value sig BOOLOID (Some value) =
    sd_bus_message_append_basic sig (Int b) /\
    (b = 1 <-> begins_with "t" value) /\
    (b = 0 <-> ~ begins_with "t" value).
Proof.
  exists (if Ascii.eqb (first_char value) "t" then 1 else 0).
  split; [rewrite encoder_BOOLOID; reflexivity |].
  pose proof (first_char_t value) as Ht.
  destruct (Ascii.eqb (first_char value) "t").
  - assert (begins_with "t" value) by (apply Ht; reflexivity).
    split; split; try reflexivity; try discriminate; try tauto.
  - assert (~ begins_with "t" value) by (intros Hb; apply Ht in Hb; discriminate Hb).
    split; split; try reflexivity; try discriminate; try tauto.
Qed.

(** ** Integers *)

Lemma strto_prefix (bits : Z) (ws : string) (sg : Sign) (digits rest : string) :
  all_space ws = true ->
  digits <> EmptyString ->
  all_digits digits = true ->
  trailing rest ->
  strto bits (ws ++ sign_text sg ++ digits ++ rest) =
  strto bits (ws ++ sign_text sg ++ digits).
Proof.
  intros Hws Hne Hdigits Hrest.
  rewrite (strto_leading_space bits ws (sign_text sg ++ digits ++ rest)),
    (strto_leading_space bits ws (sign_text sg ++ digits)) by assumption.
  transitivity (strto bits (sign_text sg ++ digits ++ "")).
  - rewrite !strto_integer by (assumption || exact I). reflexivity.
  - rewrite append_empty. reflexivity.
Qed.

Lemma strtol_in_range
    (bits : Z) (ws : string) (sg : Sign) (digits rest : string) :
  all_space ws = true ->
  digits <> EmptyString ->
  all_digits digits = true ->
  trailing rest ->
  0 < bits <= 32 ->
  in_range bits (signed sg (decimal_value digits)) ->
  to_signed bits (strtol (ws ++ sign_text sg ++ digits ++ rest)) =
  signed sg (decimal_value digits).
Proof.
  intros Hws Hne Hdigits Hrest Hbits Hrange. unfold strtol.
  rewrite strto_leading_space, strto_in_range; try assumption.
  - apply to_signed_in_range; [lia | assumption].
  - apply (in_range_mono bits); [pose proof LONG_BIT_min; lia | assumption].
Qed.

Lemma strtoll_in_range (ws : string) (sg : Sign) (digits rest : string) :
  all_space ws = true ->
  digits <> EmptyString ->
  all_digits digits = true ->
  trailing rest ->
  in_range 64 (signed sg (decimal_value digits)) ->
  to_signed 64 (strtoll (ws ++ sign_text sg ++ digits ++ rest)) =
  signed sg (decimal_value digits).
Proof.
  intros Hws Hne Hdigits Hrest Hrange. unfold strtoll.
  rewrite strto_leading_space, strto_in_range by assumption.
  apply to_signed_in_range; [lia | assumption].
Qed.

(** C8. For an integer text (an optional sign and one digit or more),
    after optional white space and followed by nothing or by text that
    does not begin with a digit: when the value fits the 16-, 32- or
    64-bit target, the encoder of the matching column type hands sd-bus
    exactly that value; and for every integer column type the encoder
    reads the integer text alone, whatever follows it, and ends in the
    append call, not in an error. *)
Theorem integer_encoding
    (sig : ascii) (ws : string) (sg : Sign) (digits rest : string) :
  all_space ws = true ->
  digits <> EmptyString ->
  all_digits digits = true ->
  trailing rest ->
  let z := signed sg (decimal_value digits) in
  let text := (ws ++ sign_text sg ++ digits ++ rest)%string in
  (in_range 16 z ->
     sd_bus_message_append_pgsql_value sig INT2OID (Some text) =
     sd_bus_message_append_basic sig (Int16 z)) /\
  (in_range 32 z ->
     sd_bus_message_append_pgsql_value sig INT4OID (Some text) =
     sd_bus_message_append_basic sig (Int32 z) /\
     sd_bus_message_append_pgsql_value sig OIDOID (Some text) =
     sd_bus_message_append_basic sig (Int32 z)) /\
  (in_range 64 z ->
     sd_bus_message_append_pgsql_value sig INT8OID (Some text) =
     sd_bus_message_append_basic sig (Int64 z)) /\
  (forall oid : Oid, In oid integer_oids ->
     sd_bus_message_append_pgsql_value sig oid (Some text) =
     sd_bus_message_append_pgsql_value sig oid
       (Some (ws ++ sign_text sg ++ digits)%string) /\
     exists p : basic,
       sd_bus_message_append_pgsql_value sig oid (Some text) =
       sd_bus_message_append_basic sig p).
Proof.
  intros Hws Hne Hdigits Hrest z text; subst z text.
  split; [| split; [| split]].
  - intros Hrange. rewrite encoder_INT2OID, bind_c_str.
    unfold int16_t. rewrite strtol_in_range by (assumption || lia).
    reflexivity.
  - intros Hrange. rewrite encoder_INT4OID, encoder_OIDOID, !bind_c_str.
    unfold int32_t. rewrite strtol_in_range by (assumption || lia).
    split; reflexivity.
  - intros Hrange. rewrite encoder_INT8OID, bind_c_str.
    unfold int64_t. rewrite strtoll_in_range by assumption.
    reflexivity.
  - unfold integer_oids; cbn [In]; intros oid Hin.
    destruct Hin as [<- | [<- | [<- | [<- | []]]]].
    + rewrite !encoder_INT2OID, !bind_c_str. unfold strtol.
      rewrite strto_prefix by assumption. split; [reflexivity | eauto].
    + rewrite !encoder_OIDOID, !bind_c_str. unfold strtol.
      rewrite strto_prefix by assumption. split; [reflexivity | eauto].
    + rewrite !encoder_INT4OID, !bind_c_str. unfold strtol.
      rewrite strto_prefix by assumption. split; [reflexivity | eauto].
    + rewrite !encoder_INT8OID, !bind_c_str. unfold strtoll.
      rewrite strto_prefix by assumption. split; [reflexivity | eauto].
Qed.

(** ** What [printf] writes, the encoder reads back *)

Lemma uint_all_digits (d : Decimal.uint) :
  all_digits (NilEmpty.string_of_uint d) = true.
Proof. induction d; cbn [NilEmpty.string_of_uint all_digits]; auto. Qed.

Lemma scan_uint_acc (d : Decimal.uint) (acc : positive) :
  scan_digits (NilEmpty.string_of_uint d) (Z.pos acc) =
  Z.pos (Pos.of_uint_acc d acc).
Proof.
  revert acc; induction d; intros acc;
    cbn [NilEmpty.string_of_uint scan_digits Pos.of_uint_acc];
    try reflexivity;
    match goal with
    | |- context [isdigit ?c] => change (isdigit c) with true; cbv iota
    end;
    rewrite <- IHd; f_equal;
    match goal with
    | |- context [code ?c] =>
        let v := eval vm_compute in (code c) in change (code c) with v
    end;
    lia.
Qed.

Lemma scan_uint (d : Decimal.uint) :
  scan_digits (NilEmpty.string_of_uint d) 0 = Z.of_N (Pos.of_uint d).
Proof.
  induction d; cbn [NilEmpty.string_of_uint scan_digits Pos.of_uint];
    try reflexivity;
    match goal with
    | |- context [isdigit ?c] => change (isdigit c) with true; cbv iota
    end;
    try exact IHd;
    cbn [Z.of_N]; rewrite <- scan_uint_acc; reflexivity.
Qed.

Lemma uint_value (d : Decimal.uint) :
  decimal_value (NilEmpty.string_of_uint d) = Z.of_N (Pos.of_uint d).
Proof.
  rewrite <- scan_uint.
  rewrite <- (append_empty (NilEmpty.string_of_uint d)) at 2.
  rewrite (scan_digits_value _ "" 0 (uint_all_digits d) I). lia.
Qed.

Lemma uint_nonempty (p : positive) :
  NilEmpty.string_of_uint (Pos.to_uint p) <> EmptyString.
Proof.
  pose proof (DecimalPos.Unsigned.to_uint_nonnil p) as Hnil.
  destruct (Pos.to_uint p); [contradiction | discriminate ..].
Qed.

Lemma uint_NilZero (p : positive) :
  NilZero.string_of_uint (Pos.to_uint p) =
  NilEmpty.string_of_uint (Pos.to_uint p).
Proof.
  pose proof (DecimalPos.Unsigned.to_uint_nonnil p) as Hnil.
  destruct (Pos.to_uint p); [contradiction | reflexivity ..].
Qed.

(** The decimal text of an integer is an integer text of that value. *)
Lemma sprintf_d_integer_text (z : Z) :
  exists (sg : Sign) (digits : string),
    sprintf_d z = (sign_text sg ++ digits)%string /\
    digits <> EmptyString /\
    all_digits digits = true /\
    signed sg (decimal_value digits) = z.
Proof.
  destruct z as [| p | p].
  - exists Unsigned, "0"%string. repeat split. discriminate.
  - exists Unsigned, (NilEmpty.string_of_uint (Pos.to_uint p)).
    unfold sprintf_d; cbn [Z.to_int Pos.to_int NilZero.string_of_int sign_text append signed].
    rewrite uint_NilZero, uint_value, DecimalPos.Unsigned.of_to.
    repeat split; [apply uint_nonempty | apply uint_all_digits].
  - exists Negative, (NilEmpty.string_of_uint (Pos.to_uint p)).
    unfold sprintf_d; cbn [Z.to_int Pos.to_int NilZero.string_of_int sign_text append signed].
    rewrite uint_NilZero, uint_value, DecimalPos.Unsigned.of_to.
    repeat split; [apply uint_nonempty | apply uint_all_digits].
Qed.

(** Round trip: the decimal text of every integer of the range is encoded
    as that integer. *)
Lemma integer_round_trip (sig : ascii) (z : Z) :
  (in_range 16 z ->
     sd_bus_message_append_pgsql_value sig INT2OID (Some (sprintf_d z)) =
     sd_bus_message_append_basic sig (Int16 z)) /\
  (in_range 32 z ->
     sd_bus_message_append_pgsql_value sig INT4OID (Some (sprintf_d z)) =
     sd_bus_message_append_basic sig (Int32 z)) /\
  (in_range 64 z ->
     sd_bus_message_append_pgsql_value sig INT8OID (Some (sprintf_d z)) =
     sd_bus_message_append_basic sig (Int64 z)).
Proof.
  destruct (sprintf_d_integer_text z) as (sg & digits & Htext & Hne & Hdigits & Hz).
  assert (Hshape : sprintf_d z = ("" ++ sign_text sg ++ digits ++ "")%string)
    by (rewrite append_empty; exact Htext).
  rewrite Hshape, <- Hz. repeat split; intros Hrange.
  - rewrite encoder_INT2OID, bind_c_str. unfold int16_t.
    rewrite strtol_in_range; try assumption; try reflexivity; lia.
  - rewrite encoder_INT4OID, bind_c_str. unfold int32_t.
    rewrite strtol_in_range; try assumption; try reflexivity; lia.
  - rewrite encoder_INT8OID, bind_c_str. unfold int64_t.
    rewrite strtoll_in_range; try assumption; reflexivity.
Qed.

(** ** Strings *)

(** C9. For a text-like column type, the encoder hands the text to
    sd-bus as it is, the empty text included: the entry the reply gains
    holds the very text. *)
Theorem string_encoding (sig : ascii) (oid : Oid) (text : string) :
  In oid text_oids ->
  sd_bus_message_append_pgsql_value sig oid (Some text) =
  sd_bus_message_append_basic sig (Str (Some text)) /\
  forall (e : environment) (w : world),
    reply (snd (sd_bus_message_append_pgsql_value sig oid (Some text) e w)) =
    build (append_basic sig (Str (Some text))) (reply w).
Proof.
  intros Hin. rewrite (encoder_text sig oid (Some text) Hin).
  split; reflexivity.
Qed.

End Encoder.

(** [ -123abc] in an [int2] column is the 16-bit integer -123. *)
Lemma integer_encoding_witness :
  sd_bus_message_append_pgsql_value (T := Postgres.catalog) (L := Postgres.lp64)
    "n" 21 (Some " -123abc"%string) =
  sd_bus_message_append_basic "n" (Int16 (-123)).
Proof.
  assert (Hws : all_space " " = true) by reflexivity.
  assert (Hne : "123"%string <> EmptyString) by discriminate.
  assert (Hdigits : all_digits "123" = true) by reflexivity.
  assert (Hrest : trailing "abc") by reflexivity.
  assert (Hrange : in_range 16 (signed Negative (decimal_value "123")))
    by (split; vm_compute; intros H; discriminate H).
  exact (proj1 (integer_encoding (T := Postgres.catalog) (L := Postgres.lp64)
                  "n" " " Negative "123" "abc" Hws Hne Hdigits Hrest) Hrange).
Defined.

(** The empty text in a [text] column stays the empty text. *)
Lemma string_encoding_witness :
  sd_bus_message_append_pgsql_value (T := Postgres.catalog) (L := Postgres.lp64)
    "s" 25 (Some ""%string) =
  sd_bus_message_append_basic "s" (Str (Some ""%string)).
Proof.
  assert (Hin : In 25 (text_oids (T := Postgres.catalog)))
    by (cbv; tauto).
  exact (proj1 (string_encoding (T := Postgres.catalog) (L := Postgres.lp64)
                  "s" 25 "" Hin)).
Defined.


(* ================================================================== *)
(** * What a handler may do to the world *)
(* ================================================================== *)

Lemma extends_refl (w : world) : extends w w.
Proof.
  split; [reflexivity |]. exists []. rewrite app_nil_r. split; constructor.
Qed.

Lemma extends_trans (a b c : world) : extends a b -> extends b c -> extends a c.
Proof.
  intros [Hu1 (n1 & Ht1 & Hf1)] [Hu2 (n2 & Ht2 & Hf2)]. split.
  - congruence.
  - exists (n1 ++ n2)%list. rewrite Ht2, Ht1, app_assoc. split.
    + reflexivity.
    + apply Forall_app; split; assumption.
Qed.

Lemma extends_grow (w : world) (tr : list event)
    (r : option sd_bus_message) (n : nat) :
  Forall expected tr ->
  extends w {| userdata := userdata w; trace := trace w ++ tr;
               reply := r; sd_bus_calls := n |}.
Proof. intros Htr. split; [reflexivity |]. exists tr. split; [reflexivity | exact Htr]. Qed.

Lemma sound_ret {A : Type} (a : A) : sound (ret a).
Proof. intros e w. apply extends_refl. Qed.

Lemma sound_return_ {A : Type} (rc : Z) : sound (@return_ A rc).
Proof. intros e w. apply extends_refl. Qed.

Lemma sound_fault {A : Type} : sound (@fault A).
Proof. intros e w. apply extends_refl. Qed.

Lemma sound_ask {A : Type} (answer : environment -> A) : sound (ask answer).
Proof. intros e w. apply extends_refl. Qed.

Lemma sound_get_userdata : sound get_userdata.
Proof. intros e w. apply extends_refl. Qed.

Lemma sound_reply_NULL : sound reply_NULL.
Proof.
  intros e w. cbn. rewrite <- (app_nil_r (trace w)) at 1.
  apply extends_grow. constructor.
Qed.

Lemma sound_check (rc : Z) : sound (check rc).
Proof. unfold check. destruct (rc <? 0); [apply sound_return_ | apply sound_ret]. Qed.

Lemma sound_c_str (p : option string) : sound (c_str p).
Proof. destruct p; [apply sound_ret | apply sound_fault]. Qed.

Lemma sound_emit (ev : event) : expected ev -> sound (emit ev).
Proof. intros Hev e w. apply extends_grow. repeat constructor. exact Hev. Qed.

Lemma sound_sd_bus_call (tr : list event)
    (msg : option sd_bus_message -> option sd_bus_message) :
  Forall expected tr -> sound (sd_bus_call tr msg).
Proof. intros Htr e w. apply extends_grow. exact Htr. Qed.

Lemma sound_sd_bus_send : sound sd_bus_send.
Proof. intros e w. apply extends_grow. repeat constructor. Qed.

Lemma sound_bind {A B : Type} (m : M A) (k : A -> M B) :
  sound m -> (forall a : A, sound (k a)) -> sound (bind m k).
Proof.
  intros Hm Hk e w. unfold bind. specialize (Hm e w).
  destruct (m e w) as [[a | rc |] w1]; cbn [snd] in *; try exact Hm.
  apply (extends_trans w w1); [exact Hm | apply Hk].
Qed.

Lemma sound_new_method_return : sound sd_bus_message_new_method_return.
Proof. intros e w. apply extends_grow. constructor. Qed.

(** Decomposes a handler into its calls. *)
Ltac sound_step :=
  first
    [ apply sound_bind; [| intro]
    | apply sound_new_method_return
    | apply sound_ret
    | apply sound_return_
    | apply sound_fault
    | apply sound_ask
    | apply sound_get_userdata
    | apply sound_reply_NULL
    | apply sound_check
    | apply sound_c_str
    | apply sound_sd_bus_send
    | apply sound_emit; exact I
    | apply sound_emit; reflexivity
    | apply sound_sd_bus_call; repeat constructor
    | match goal with
      | |- sound (match ?x with _ => _ end) => destruct x
      end ].

Ltac sound_calls :=
  unfold fprintf_stderr, PQpingParams, PQconnectdbParams, PQexec, PQclear,
    PQfinish, sd_bus_reply_method_errorf, sd_bus_reply_method_return,
    sd_bus_message_open_container,
    sd_bus_message_append_s, sd_bus_message_append_basic,
    sd_bus_message_close_container;
  repeat sound_step.

Section HandlersSound.
Context {T : pg_type_d} {L : limits_h}.

Lemma sound_encoder (sig : ascii) (oid : Oid) (value : option string) :
  sound (sd_bus_message_append_pgsql_value sig oid value).
Proof. unfold sd_bus_message_append_pgsql_value. sound_calls. Qed.

Lemma sound_append_field (res : PGresult) (i : nat) : sound (append_field res i).
Proof.
  unfold append_field. cbv zeta.
  repeat (apply sound_bind; [| intro]);
    first [apply sound_encoder | sound_calls].
Qed.

Lemma sound_append_fields (res : PGresult) (n i : nat) :
  sound (append_fields res i n).
Proof.
  revert i; induction n as [| n IH]; intros i; cbn [append_fields].
  - apply sound_ret.
  - apply sound_bind; [apply sound_append_field | intros _; apply IH].
Qed.

Lemma sound_method_ping (m : method_call) : sound (method_ping m).
Proof. unfold method_ping. sound_calls. Qed.

Lemma sound_method_query (m : method_call) : sound (method_query m).
Proof.
  unfold method_query, goto_end.
  repeat first [apply sound_append_fields | progress sound_calls].
Qed.

End HandlersSound.

(* ================================================================== *)
(** * The handlers *)
(* ================================================================== *)

Section HandlerFacts.
Context {T : pg_type_d} {L : limits_h}.

Lemma read_fails (m : method_call) :
  no_string_argument m -> sd_bus_message_read_s m = (- ENXIO, None).
Proof.
  intros [-> | (type & content & rest & -> & Htype)]; [reflexivity |].
  cbn [sd_bus_message_read_s].
  apply Ascii.eqb_neq in Htype. rewrite Htype. reflexivity.
Qed.

(** By contrast, a write to the [Port] property does change the
    context. *)
Example port_write_changes_context :
  port (userdata (property_set (Port 5432) Postgres.start)) = 5432 /\
  port (userdata Postgres.start) = 15433.
Proof. split; reflexivity. Qed.

(** C10. Neither handler changes the connection configuration: after
    [method_ping] and after [method_query], on every request and whatever
    the libraries answer, the host and the port of the context are the
    ones it held before. *)
Theorem handlers_keep_context
    (m : method_call) (e : environment) (w : world) :
  (host (userdata (snd (method_ping m e w))) = host (userdata w) /\
   port (userdata (snd (method_ping m e w))) = port (userdata w)) /\
  (host (userdata (snd (method_query m e w))) = host (userdata w) /\
   port (userdata (snd (method_query m e w))) = port (userdata w)).
Proof.
  destruct (sound_method_ping m e w) as [Hping _].
  destruct (sound_method_query m e w) as [Hquery _].
  rewrite Hping, Hquery. repeat split.
Qed.

(** The check of lines 155-157: when the next argument cannot be read
    as a string, [method_query] sends the [InvalidArgs] error at once and
    returns the code of that call: this reply is its only call, and no
    call into libpq is made. *)
Lemma query_read_failure
    (m : method_call) (e : environment) (w : world) :
  no_string_argument m ->
  method_query m e w =
  (Return (sd_bus_answer e (sd_bus_calls w)),
   {| userdata := userdata w;
      trace := trace w ++ [bus_reply_error SD_BUS_ERROR_INVALID_ARGS
                             "Expected interface parameter"];
      reply := None;
      sd_bus_calls := S (sd_bus_calls w) |}) /\
  pq_calls (trace (snd (method_query m e w))) = pq_calls (trace w).
Proof.
  intros Hm.
  assert (Hrun : method_query m e w =
    (Return (sd_bus_answer e (sd_bus_calls w)),
     {| userdata := userdata w;
        trace := trace w ++ [bus_reply_error SD_BUS_ERROR_INVALID_ARGS
                               "Expected interface parameter"];
        reply := None;
        sd_bus_calls := S (sd_bus_calls w) |})).
  { unfold method_query. rewrite (read_fails m Hm). reflexivity. }
  split; [exact Hrun |].
  rewrite Hrun. cbn [snd trace]. unfold pq_calls.
  rewrite filter_app. cbn [filter is_pq]. apply app_nil_r.
Qed.

Lemma signature_single (m : method_call) :
  String.eqb "s" (signature_of m) = true <->
  exists query : string, m = [Arg "s" query].
Proof.
  rewrite String.eqb_eq. split.
  - destruct m as [| [type content] [| [type' content'] rest]];
      cbn [signature_of]; intros H; try discriminate H.
    injection H as <-. exists content. reflexivity.
  - intros [query ->]. reflexivity.
Qed.

(** C6. A [Query] request whose arguments are not one single string
    (none, a first argument of another type, or a string followed by
    more) is answered with the [InvalidArgs] error at once: through the
    vtable the handler is not called, the error reply is the only call
    made and no call into libpq is made.  And when [method_query] itself
    is handed a request without a leading string, its own check does the
    same. *)
Theorem query_invalid_arguments
    (bus_error : Z -> string * string)
    (m : method_call) (e : environment) (w : world) :
  ~ (exists query : string, m = [Arg "s" query]) ->
  (method_callbacks_run bus_error Query_method m e w =
   (Return (sd_bus_answer e (sd_bus_calls w)),
    {| userdata := userdata w;
       trace := trace w ++ [bus_reply_error SD_BUS_ERROR_INVALID_ARGS
                              (invalid_arguments Query_method m)];
       reply := reply w;
       sd_bus_calls := S (sd_bus_calls w) |}) /\
   pq_calls (trace (snd (method_callbacks_run bus_error Query_method m e w)))
   = pq_calls (trace w)) /\
  (no_string_argument m ->
   method_query m e w =
   (Return (sd_bus_answer e (sd_bus_calls w)),
    {| userdata := userdata w;
       trace := trace w ++ [bus_reply_error SD_BUS_ERROR_INVALID_ARGS
                              "Expected interface parameter"];
       reply := None;
       sd_bus_calls := S (sd_bus_calls w) |}) /\
   pq_calls (trace (snd (method_query m e w))) = pq_calls (trace w)).
Proof.
  intros Hm. split; [| exact (query_read_failure m e w)].
  assert (Hsig : String.eqb (signature Query_method) (signature_of m) = false).
  { destruct (String.eqb (signature Query_method) (signature_of m)) eqn:Heq;
      [| reflexivity].
    exfalso. apply Hm, signature_single. exact Heq. }
  assert (Hrun : method_callbacks_run bus_error Query_method m e w =
    (Return (sd_bus_answer e (sd_bus_calls w)),
     {| userdata := userdata w;
        trace := trace w ++ [bus_reply_error SD_BUS_ERROR_INVALID_ARGS
                               (invalid_arguments Query_method m)];
        reply := reply w;
        sd_bus_calls := S (sd_bus_calls w) |})).
  { unfold method_callbacks_run. rewrite Hsig. reflexivity. }
  split; [exact Hrun |].
  rewrite Hrun. cbn [snd trace]. unfold pq_calls.
  rewrite filter_app. cbn [filter is_pq]. apply app_nil_r.
Qed.

Lemma query_connection_bad
    (query : string) (rest : method_call) (e : environment) (w : world) :
  let c := userdata w in
  let conn := PQconnect_answer e (host c) (sprintf_d (port c)) in
  status conn = CONNECTION_BAD ->
  method_query (Arg "s" query :: rest) e w =
  (Return (sd_bus_answer e (sd_bus_calls w)),
   {| userdata := c;
      trace := trace w ++
               [connecting c;
                pq_connectdb (host c) (sprintf_d (port c));
                stderr_line ("Connection to database failed: "
                             ++ errorMessage conn)%string;
                pq_finish;
                bus_reply_return None None];
      reply := None;
      sd_bus_calls := S (sd_bus_calls w) |}).
Proof.
  intros c conn Hbad; subst c conn.
  unfold method_query, bind, get_userdata, reply_NULL, PQconnectdbParams,
    fprintf_stderr, emit, ask, bind, c_str, ret, sd_bus_message_read_s.
  cbn [Ascii.eqb Bool.eqb Z.ltb Z.compare userdata trace reply sd_bus_calls].
  rewrite Hbad.
  unfold goto_end, PQfinish, sd_bus_reply_method_return, sd_bus_call, emit,
    bind, return_.
  cbn [userdata trace reply sd_bus_calls].
  rewrite <- !app_assoc. reflexivity.
Qed.

Lemma query_execution_failed
    (query : string) (rest : method_call) (e : environment) (w : world) :
  let c := userdata w in
  let conn := PQconnect_answer e (host c) (sprintf_d (port c)) in
  let res := fst (PQexec_answer e query) in
  let message := snd (PQexec_answer e query) in
  status conn = CONNECTION_OK ->
  resultStatus res <> PGRES_TUPLES_OK ->
  method_query (Arg "s" query :: rest) e w =
  (Return (sd_bus_answer e (sd_bus_calls w)),
   {| userdata := c;
      trace := trace w ++
               [connecting c;
                pq_connectdb (host c) (sprintf_d (port c));
                pq_exec query;
                stderr_line ("query failed: " ++ message)%string;
                pq_clear;
                pq_finish;
                bus_reply_return None None];
      reply := None;
      sd_bus_calls := S (sd_bus_calls w) |}).
Proof.
  intros c conn res message Hok Hres; subst c conn res message.
  unfold method_query, bind, get_userdata, reply_NULL, PQconnectdbParams,
    fprintf_stderr, emit, ask, bind, c_str, ret, sd_bus_message_read_s.
  cbn [Ascii.eqb Bool.eqb Z.ltb Z.compare userdata trace reply sd_bus_calls].
  rewrite Hok.
  unfold PQexec, bind, emit, ask.
  destruct (PQexec_answer e query) as [res message]; cbn [fst snd] in *.
  destruct (resultStatus res); try contradiction;
    unfold goto_end, PQclear, PQfinish, sd_bus_reply_method_return,
      sd_bus_call, emit, bind, return_;
    cbn [userdata trace reply sd_bus_calls];
    rewrite <- !app_assoc; reflexivity.
Qed.

(** The first sd-bus call after a successful query fails: the handler
    returns its code at line 191 and neither clears the result nor
    finishes the connection. *)
Lemma query_early_return
    (query : string) (rest : method_call) (e : environment) (w : world) :
  let c := userdata w in
  let conn := PQconnect_answer e (host c) (sprintf_d (port c)) in
  let res := fst (PQexec_answer e query) in
  status conn = CONNECTION_OK ->
  resultStatus res = PGRES_TUPLES_OK ->
  sd_bus_answer e (sd_bus_calls w) < 0 ->
  method_query (Arg "s" query :: rest) e w =
  (Return (sd_bus_answer e (sd_bus_calls w)),
   {| userdata := c;
      trace := trace w ++
               [connecting c;
                pq_connectdb (host c) (sprintf_d (port c));
                pq_exec query;
                stderr_line ("query succeed!" ++ LF)%string];
      reply := None;
      sd_bus_calls := S (sd_bus_calls w) |}).
Proof.
  intros c conn res Hok Hres Hrc; subst c conn res.
  unfold method_query, bind, get_userdata, reply_NULL, PQconnectdbParams,
    fprintf_stderr, emit, ask, bind, c_str, ret, sd_bus_message_read_s.
  cbn [Ascii.eqb Bool.eqb Z.ltb Z.compare userdata trace reply sd_bus_calls].
  rewrite Hok.
  unfold PQexec, bind, emit, ask.
  destruct (PQexec_answer e query) as [res message]; cbn [fst snd] in *.
  rewrite Hres.
  unfold sd_bus_message_new_method_return, sd_bus_call, check, bind, emit,
    return_.
  cbn [userdata trace reply sd_bus_calls].
  apply Z.ltb_lt in Hrc. rewrite Hrc.
  rewrite app_nil_r, <- !app_assoc. reflexivity.
Qed.

(** A result without columns, the sd-bus calls succeeding: the reply
    sent is the empty mapping. *)
Lemma query_no_columns
    (query : string) (rest : method_call) (e : environment) (w : world) :
  let c := userdata w in
  let conn := PQconnect_answer e (host c) (sprintf_d (port c)) in
  let res := fst (PQexec_answer e query) in
  status conn = CONNECTION_OK ->
  resultStatus res = PGRES_TUPLES_OK ->
  attDescs res = [] ->
  (forall n : nat, 0 <= sd_bus_answer e n) ->
  method_query (Arg "s" query :: rest) e w =
  (Return (sd_bus_answer e (3 + sd_bus_calls w)),
   {| userdata := c;
      trace := trace w ++
               [connecting c;
                pq_connectdb (host c) (sprintf_d (port c));
                pq_exec query;
                stderr_line ("query succeed!" ++ LF)%string;
                pq_clear;
                pq_finish;
                bus_send (Some empty_mapping)];
      reply := Some empty_mapping;
      sd_bus_calls := 4 + sd_bus_calls w |}).
Proof.
  intros c conn res Hok Hres Hcols Hbus; subst c conn res.
  assert (Hrc : forall n : nat, (sd_bus_answer e n <? 0) = false)
    by (intros n; apply Z.ltb_ge, Hbus).
  unfold method_query, bind, get_userdata, reply_NULL, PQconnectdbParams,
    fprintf_stderr, emit, ask, bind, c_str, ret, sd_bus_message_read_s.
  cbn [Ascii.eqb Bool.eqb Z.ltb Z.compare userdata trace reply sd_bus_calls].
  rewrite Hok.
  unfold PQexec, bind, emit, ask.
  destruct (PQexec_answer e query) as [res message]; cbn [fst snd] in *.
  rewrite Hres. unfold PQnfields. rewrite Hcols.
  cbn [List.length append_fields].
  unfold sd_bus_message_new_method_return, sd_bus_message_open_container,
    sd_bus_message_close_container, sd_bus_send, PQclear, PQfinish,
    sd_bus_call, check, bind, emit, ret, return_, build.
  cbn [userdata trace reply sd_bus_calls].
  rewrite !Hrc.
  cbn [userdata trace reply sd_bus_calls app plus].
  rewrite !app_nil_r, <- !app_assoc. reflexivity.
Qed.

(** A request that fails softly, served through the vtable: the handler
    returns the code of the method return without arguments, and when
    sd-bus has refused that reply the caller is sent an error. *)
Lemma query_fail_soft_served
    (bus_error : Z -> string * string)
    (query : string) (e : environment) (w : world) :
  let c := userdata w in
  let conn := PQconnect_answer e (host c) (sprintf_d (port c)) in
  let res := fst (PQexec_answer e query) in
  status conn <> CONNECTION_OK \/ resultStatus res <> PGRES_TUPLES_OK ->
  sd_bus_answer e (sd_bus_calls w) < 0 ->
  fst (method_query [Arg "s" query] e w) =
  Return (sd_bus_answer e (sd_bus_calls w)) /\
  exists calls : list event,
    trace (snd (method_callbacks_run bus_error Query_method
                  [Arg "s" query] e w)) =
    (trace w ++ calls ++
     [bus_reply_return None None;
      bus_reply_error
        (fst (bus_error (Z.abs (sd_bus_answer e (sd_bus_calls w)))))
        (snd (bus_error (Z.abs (sd_bus_answer e (sd_bus_calls w)))))])%list.
Proof.
  intros c conn res Hfail Hrc; subst c conn res.
  apply Z.ltb_lt in Hrc.
  assert (Hserved : forall w' : world,
    method_query [Arg "s" query] e w =
    (Return (sd_bus_answer e (sd_bus_calls w)), w') ->
    method_callbacks_run bus_error Query_method [Arg "s" query] e w =
    bus_maybe_reply_error bus_error (sd_bus_answer e (sd_bus_calls w)) e w').
  { intros w' Hq. unfold method_callbacks_run.
    cbn [signature handler Query_method signature_of].
    change (String.eqb "s" "s") with true. cbv iota beta.
    rewrite Hq. reflexivity. }
  assert (Hreply : forall w' : world,
    trace (snd (bus_maybe_reply_error bus_error
                  (sd_bus_answer e (sd_bus_calls w)) e w')) =
    (trace w' ++
     [bus_reply_error
        (fst (bus_error (Z.abs (sd_bus_answer e (sd_bus_calls w)))))
        (snd (bus_error (Z.abs (sd_bus_answer e (sd_bus_calls w)))))])%list).
  { intros w'. unfold bus_maybe_reply_error. rewrite Hrc. reflexivity. }
  destruct (status (PQconnect_answer e (host (userdata w))
                      (sprintf_d (port (userdata w))))) eqn:Hstatus.
  - destruct Hfail as [Hfail | Hfail]; [contradiction |].
    pose proof (query_execution_failed query [] e w Hstatus Hfail) as Hq.
    cbv zeta in Hq.
    split; [rewrite Hq; reflexivity |].
    rewrite (Hserved _ Hq), Hreply. cbn [trace].
    eexists [_; _; _; _; _; _].
    rewrite <- !app_assoc. reflexivity.
  - pose proof (query_connection_bad query [] e w Hstatus) as Hq.
    cbv zeta in Hq.
    split; [rewrite Hq; reflexivity |].
    rewrite (Hserved _ Hq), Hreply. cbn [trace].
    eexists [_; _; _; _].
    rewrite <- !app_assoc. reflexivity.
Qed.

End HandlerFacts.

(* ================================================================== *)
(** * Runs on the concrete platform                                    *)
(* ================================================================== *)

Section Runs.
Import Postgres.

(** The two scenarios of the specification. *)
Example query_int2 :
  sent (trace (snd (method_query [Arg "s" "SELECT 10::int2 AS blah"] server start))) =
  [Some [open_container "a" "{sv}";
         open_container "e" "sv"; append_s (Some "blah"%string);
         open_container "v" "n"; append_basic "n" (Int16 10);
         close_container; close_container;
         close_container]].
Proof. vm_compute. reflexivity. Qed.

Example query_text_and_bool :
  sent (trace (snd (method_query [Arg "s" "SELECT 'x' AS t, true AS b"] server start))) =
  [Some [open_container "a" "{sv}";
         open_container "e" "sv"; append_s (Some "t"%string);
         open_container "v" "s"; append_basic "s" (Str (Some "x"%string));
         close_container; close_container;
         open_container "e" "sv"; append_s (Some "b"%string);
         open_container "v" "b"; append_basic "b" (Int 1);
         close_container; close_container;
         close_container]].
Proof. vm_compute. reflexivity. Qed.

(** C1, which the code does not meet.  [numeric] is a column type no
    case names: [oid_to_signature] gives it the string tag, yet the
    encoder, which switches on the type again and not on the tag, takes
    its default and returns -1; [method_query] then returns -1 and sends
    no reply. *)
Theorem numeric_value_unsupported :
  oid_to_signature NUMERICOID = tag_code TagString /\
  (forall (e : environment) (w : world),
     sd_bus_message_append_pgsql_value
       (oid_to_signature NUMERICOID) NUMERICOID (Some "1.5"%string) e w =
     (Next (-1), w)) /\
  (let run := method_query [Arg "s" "SELECT 1.5::numeric AS n"] server start in
   fst run = Return (-1) /\ sent (trace (snd run)) = []).
Proof.
  split; [reflexivity |]. split; [reflexivity |].
  vm_compute. split; reflexivity.
Qed.

(** C2, which the code does not meet.  With the connection open and the
    result obtained, a negative code while the reply is built makes
    [method_query] return at once: the connection is never finished and
    the result never cleared.  This happens for a [numeric] column (the
    encoder returns -1, line 220) and when sd-bus fails (line 191). *)
Theorem query_leaks_connection :
  (let run := method_query [Arg "s" "SELECT 1.5::numeric AS n"] server start in
   fst run = Return (-1) /\
   connections_open (trace (snd run)) = 1 /\
   results_open (trace (snd run)) = 1) /\
  (let run :=
     method_query [Arg "s" "SELECT 10::int2 AS blah"] out_of_memory start in
   fst run = Return (-12) /\
   connections_open (trace (snd run)) = 1 /\
   results_open (trace (snd run)) = 1).
Proof. vm_compute. repeat split. Qed.

(** C4, which the code does not meet.  The loop reads row 0 without
    asking whether the result has a row.  For a result with a [text]
    column and no row, the reply sent is not the empty mapping: it holds
    an entry for the column, appended from the [NULL] that [PQgetvalue]
    answers.  For a result with a [bool] column and no row, the encoder
    reads through that [NULL] and nothing is sent. *)
Theorem query_zero_rows :
  (let run :=
     method_query [Arg "s" "SELECT 'x'::text AS t WHERE false"] server start in
   fst run = Return 0 /\
   sent (trace (snd run)) =
   [Some [open_container "a" "{sv}";
          open_container "e" "sv"; append_s (Some "t"%string);
          open_container "v" "s"; append_basic "s" (Str None);
          close_container; close_container;
          close_container]] /\
   sent (trace (snd run)) <> [Some empty_mapping]) /\
  (let run :=
     method_query [Arg "s" "SELECT true AS b WHERE false"] server start in
   fst run = Fault /\ sent (trace (snd run)) = []).
Proof.
  vm_compute. repeat split. intros H; discriminate H.
Qed.

(** C3, which the code does not meet.  The fail-soft reply is
    [sd_bus_reply_method_return(m, NULL)], a method return without
    arguments, while [instance_vtable] declares the result ["a{sv}"] for
    [Query]: sd-bus refuses it with [-ENOMSG], [method_query] returns
    that negative code, and sd-bus answers the caller with an error, not
    with an empty success.  The same happens to every negative code the
    handler returns, such as the -1 of a [numeric] column. *)
Theorem query_fail_soft_refused (bus_error : Z -> string * string) :
  (let run := method_query [Arg "s" "garbage"] refusing start in
   fst run = Return (- ENOMSG) /\
   trace (snd run) =
   [connecting main_context;
    pq_connectdb "/tmp" "15433";
    pq_exec "garbage";
    stderr_line "query failed: ERROR:  syntax error";
    pq_clear;
    pq_finish;
    bus_reply_return None None]) /\
  (let served :=
     method_callbacks_run bus_error Query_method [Arg "s" "garbage"]
       refusing start in
   trace (snd served) =
   [connecting main_context;
    pq_connectdb "/tmp" "15433";
    pq_exec "garbage";
    stderr_line "query failed: ERROR:  syntax error";
    pq_clear;
    pq_finish;
    bus_reply_return None None;
    bus_reply_error (fst (bus_error ENOMSG)) (snd (bus_error ENOMSG))]) /\
  (let served :=
     method_callbacks_run bus_error Query_method
       [Arg "s" "SELECT 1.5::numeric AS n"] server start in
   trace (snd served) =
   [connecting main_context;
    pq_connectdb "/tmp" "15433";
    pq_exec "SELECT 1.5::numeric AS n";
    stderr_line ("query succeed!" ++ LF);
    bus_reply_error (fst (bus_error 1)) (snd (bus_error 1))]).
Proof. repeat split. Qed.

(** A request with a string and an unsigned integer. *)
Lemma query_invalid_arguments_witness :
  method_callbacks_run (fun _ => (EmptyString, EmptyString)) Query_method
    [Arg "s" "SELECT 1"; Arg "u" "12"] server start =
  (Return 0,
   {| userdata := main_context;
      trace := [bus_reply_error SD_BUS_ERROR_INVALID_ARGS
                  "Invalid arguments 'su' to call org.postgresql.instance.Query(), expecting 's'."];
      reply := None;
      sd_bus_calls := 1 |}).
Proof.
  assert (Hm : ~ (exists query : string,
                    [Arg "s" "SELECT 1"; Arg "u" "12"] = [Arg "s" query]))
    by (intros [query H]; discriminate H).
  exact (proj1 (proj1 (query_invalid_arguments
                         (fun _ => (EmptyString, EmptyString))
                         [Arg "s" "SELECT 1"; Arg "u" "12"] server start Hm))).
Defined.

End Runs.

(* ================================================================== *)
(** * More on the value encoder                                        *)
(* ================================================================== *)

Section EncoderMore.
Context {T : pg_type_d} {L : limits_h}.

(** The encoder is its switch of pure conversions followed by the append
    call. *)
Lemma encoder_scalar (sig : ascii) (oid : Oid) (text : string) :
  sd_bus_message_append_pgsql_value sig oid (Some text) =
  match scalar oid text with
  | Some p => sd_bus_message_append_basic sig p
  | None => ret (-1)
  end.
Proof.
  unfold sd_bus_message_append_pgsql_value, scalar.
  switch_cases; reflexivity.
Qed.

Lemma scalar_known (oid : Oid) (text : string) :
  In oid known_oids ->
  exists p : basic,
    scalar oid text = Some p /\
    tag_code (payload_tag p) = oid_to_signature oid.
Proof.
  unfold known_oids, scalar, oid_to_signature; intros Hin.
  switch_cases;
    first [ eexists; split; reflexivity
          | exfalso; cbn [In] in Hin;
            repeat (destruct Hin as [Hin | Hin]; [congruence |]);
            exact Hin ].
Qed.

Lemma scalar_unlisted (oid : Oid) (text : string) :
  ~ In oid known_oids -> scalar oid text = None.
Proof.
  unfold known_oids, scalar; intros Hout.
  switch_cases; first [reflexivity | not_a_label Hout].
Qed.

(** X1. A column type outside the thirteen case labels: the mapper gives
    it the string tag, and the encoder returns -1 without calling sd-bus
    and without touching the reply, whatever the tag and the value it is
    given. *)
Theorem unlisted_type_rejected
    (sig : ascii) (oid : Oid) (value : option string)
    (e : environment) (w : world) :
  ~ In oid known_oids ->
  oid_to_signature oid = tag_code TagString /\
  sd_bus_message_append_pgsql_value sig oid value e w = (Next (-1), w).
Proof.
  intros Hout. split.
  - apply oid_to_signature_default, Hout.
  - rewrite (encoder_default sig oid value Hout). reflexivity.
Qed.

(** X2. For each of the thirteen column types and every text, the object
    the encoder hands to sd-bus has the C type that the tag of
    [oid_to_signature] announces: the variant [method_query] opens with
    that tag is filled with a value of that type. *)
Theorem encoder_matches_signature (oid : Oid) (text : string) :
  In oid known_oids ->
  exists p : basic,
    sd_bus_message_append_pgsql_value (oid_to_signature oid) oid (Some text) =
    sd_bus_message_append_basic (oid_to_signature oid) p /\
    tag_code (payload_tag p) = oid_to_signature oid.
Proof.
  intros Hin. destruct (scalar_known oid text Hin) as (p & Hp & Htag).
  exists p. split; [| exact Htag].
  rewrite encoder_scalar, Hp. reflexivity.
Qed.

(** X17. The tag tells the class of the column type: [b] is given to
    [bool] only, [n] to [int2] only, [i] to [oid] and [int4], [x] to
    [int8], [d] to the two floats, and [s] to every other type. *)
Theorem signature_determines_class (oid : Oid) :
  (oid_to_signature oid = tag_code TagBoolean <-> oid = BOOLOID) /\
  (oid_to_signature oid = tag_code TagInt16 <-> oid = INT2OID) /\
  (oid_to_signature oid = tag_code TagInt32 <->
   oid = OIDOID \/ oid = INT4OID) /\
  (oid_to_signature oid = tag_code TagInt64 <-> oid = INT8OID) /\
  (oid_to_signature oid = tag_code TagDouble <->
   oid = FLOAT4OID \/ oid = FLOAT8OID) /\
  (oid_to_signature oid = tag_code TagString <-> ~ In oid parsed_oids).
Proof.
  unfold oid_to_signature, tag_code.
  switch_cases; subst; repeat split; intros Hclass;
    try reflexivity; try discriminate Hclass; try tauto.
  all: try congruence.
  all: try label_clash.
  all: try (destruct Hclass as [Hclass | Hclass];
            first [congruence | label_clash]).
  all: try (exfalso; apply Hclass; cbn [In parsed_oids]; tauto).
  all: try (intros Hin; cbn [In parsed_oids] in Hin;
            repeat (destruct Hin as [Hin | Hin];
                    [first [congruence | symmetry in Hin; label_clash] |]);
            exact Hin).
Qed.

End EncoderMore.

(* ================================================================== *)
(** * More on the integer conversions                                  *)
(* ================================================================== *)

Lemma pow2_pos (n : Z) : 0 <= n -> 0 < 2 ^ n.
Proof. intros Hn. apply Z.pow_pos_nonneg; lia. Qed.

Lemma pow2_double (bits : Z) : 0 < bits -> 2 ^ bits = 2 * 2 ^ (bits - 1).
Proof.
  intros Hbits. rewrite <- Z.pow_succ_r by lia. f_equal; lia.
Qed.

Lemma to_signed_range (bits x : Z) :
  0 < bits -> in_range bits (to_signed bits x).
Proof.
  intros Hbits. unfold in_range, to_signed.
  pose proof (pow2_pos (bits - 1) ltac:(lia)) as Hhalf.
  pose proof (pow2_double bits Hbits) as Hdouble.
  pose proof (Z.mod_pos_bound (x + 2 ^ (bits - 1)) (2 ^ bits) ltac:(lia))
    as Hmod.
  lia.
Qed.

Lemma to_signed_congruent (bits x : Z) :
  0 < bits -> (to_signed bits x - x) mod 2 ^ bits = 0.
Proof.
  intros Hbits. unfold to_signed.
  pose proof (pow2_pos bits ltac:(lia)) as Hpos.
  replace ((x + 2 ^ (bits - 1)) mod 2 ^ bits - 2 ^ (bits - 1) - x)
    with (- ((x + 2 ^ (bits - 1)) / 2 ^ bits) * 2 ^ bits).
  - apply Z.mod_mul. lia.
  - pose proof (Z.div_mod (x + 2 ^ (bits - 1)) (2 ^ bits) ltac:(lia)). lia.
Qed.

Lemma strto_range (bits : Z) (nptr : string) :
  0 < bits -> in_range bits (strto bits nptr).
Proof.
  intros Hbits. unfold in_range, strto.
  pose proof (pow2_pos (bits - 1) ltac:(lia)) as Hhalf.
  destruct (skip_space nptr) as [| c r].
  - cbn [scan_digits].
    repeat match goal with
           | |- context [?a <? ?b] => destruct (Z.ltb_spec a b)
           end; lia.
  - destruct (Ascii.eqb c "-"); [| destruct (Ascii.eqb c "+")];
      repeat match goal with
             | |- context [?a <? ?b] => destruct (Z.ltb_spec a b)
             end; lia.
Qed.

(** [2^n - 1] and [- 2^n] seen through a narrower signed type. *)
Lemma to_signed_max (bits n : Z) :
  0 < bits <= n -> to_signed bits (2 ^ n - 1) = -1.
Proof.
  intros Hn. unfold to_signed.
  pose proof (pow2_pos (bits - 1) ltac:(lia)) as Hhalf.
  replace (2 ^ n - 1 + 2 ^ (bits - 1))
    with (2 ^ (bits - 1) - 1 + 2 ^ (n - bits) * 2 ^ bits).
  - rewrite Z.mod_add by (pose proof (pow2_pos bits ltac:(lia)); lia).
    rewrite Z.mod_small by (rewrite (pow2_double bits) by lia; lia). lia.
  - rewrite <- Z.pow_add_r by lia. replace (n - bits + bits) with n by lia. lia.
Qed.

Lemma to_signed_min (bits n : Z) :
  0 < bits <= n -> to_signed bits (- 2 ^ n) = 0.
Proof.
  intros Hn. unfold to_signed.
  pose proof (pow2_pos (bits - 1) ltac:(lia)) as Hhalf.
  replace (- 2 ^ n + 2 ^ (bits - 1))
    with (2 ^ (bits - 1) + - 2 ^ (n - bits) * 2 ^ bits).
  - rewrite Z.mod_add by (pose proof (pow2_pos bits ltac:(lia)); lia).
    rewrite Z.mod_small by (rewrite (pow2_double bits) by lia; lia). lia.
  - rewrite Z.mul_opp_l, <- Z.pow_add_r by lia.
    replace (n - bits + bits) with n by lia. lia.
Qed.

Lemma scan_no_digit (s : string) (acc : Z) :
  no_digit s = true -> scan_digits s acc = acc.
Proof.
  destruct s as [| c r]; cbn [no_digit scan_digits]; [reflexivity |].
  intros H. apply andb_prop in H as [Hc _].
  apply negb_true_iff in Hc. rewrite Hc. reflexivity.
Qed.

Lemma skip_space_no_digit (s : string) :
  no_digit s = true -> no_digit (skip_space s) = true.
Proof.
  induction s as [| c r IH]; cbn [no_digit skip_space]; [reflexivity |].
  intros H. destruct (isspace c).
  - apply andb_prop in H as [_ Hr]. exact (IH Hr).
  - exact H.
Qed.

Lemma strto_no_digit (bits : Z) (s : string) :
  0 < bits -> no_digit s = true -> strto bits s = 0.
Proof.
  intros Hbits Hs. unfold strto.
  pose proof (pow2_pos (bits - 1) ltac:(lia)) as Hhalf.
  pose proof (skip_space_no_digit s Hs) as Hskip.
  destruct (skip_space s) as [| c r].
  - cbn [scan_digits].
    destruct (Z.ltb_spec 0 (- 2 ^ (bits - 1))); [lia |].
    destruct (Z.ltb_spec (2 ^ (bits - 1) - 1) 0); [lia | reflexivity].
  - assert (Hr : no_digit r = true)
      by (cbn [no_digit] in Hskip; apply andb_prop in Hskip as [_ Hr]; exact Hr).
    destruct (Ascii.eqb c "-"); [| destruct (Ascii.eqb c "+")];
      rewrite ?(scan_no_digit r 0 Hr), ?(scan_no_digit (String c r) 0 Hskip);
      cbn [Z.opp];
      (destruct (Z.ltb_spec 0 (- 2 ^ (bits - 1))); [lia |]);
      (destruct (Z.ltb_spec (2 ^ (bits - 1) - 1) 0); [lia | reflexivity]).
Qed.

Lemma check_port_texts_sound (n : nat) (p q : Z) :
  check_port_texts n p = true ->
  p <= q < p + Z.of_nat n ->
  (String.length (sprintf_d q) <= 5)%nat.
Proof.
  revert p; induction n as [| n IH]; intros p Hcheck Hq; [lia |].
  cbn [check_port_texts] in Hcheck. apply andb_prop in Hcheck as [Hp Hrest].
  destruct (Z.eq_dec q p) as [-> | Hne].
  - apply Nat.leb_le, Hp.
  - apply (IH (p + 1) Hrest). lia.
Qed.

Section IntegersMore.
Context {T : pg_type_d} {L : limits_h}.

(** X3. Integer encoding never fails and never leaves the target type,
    whatever the text: [int2] and [int4]/[oid] values are the [long] that
    [strtol] reads, reduced modulo 2^16 and 2^32 into the signed range
    (a value that does not fit wraps around silently); an [int8] value is
    the [long long] that [strtoll] reads, already within 64 bits. *)
Theorem integer_encoding_wraps (sig : ascii) (text : string) :
  (exists s : Z,
     sd_bus_message_append_pgsql_value sig INT2OID (Some text) =
     sd_bus_message_append_basic sig (Int16 s) /\
     in_range 16 s /\ (s - strtol text) mod 2 ^ 16 = 0) /\
  (exists i : Z,
     sd_bus_message_append_pgsql_value sig INT4OID (Some text) =
     sd_bus_message_append_basic sig (Int32 i) /\
     sd_bus_message_append_pgsql_value sig OIDOID (Some text) =
     sd_bus_message_append_basic sig (Int32 i) /\
     in_range 32 i /\ (i - strtol text) mod 2 ^ 32 = 0) /\
  (sd_bus_message_append_pgsql_value sig INT8OID (Some text) =
   sd_bus_message_append_basic sig (Int64 (strtoll text)) /\
   in_range 64 (strtoll text)) /\
  in_range LONG_BIT (strtol text).
Proof.
  split; [| split; [| split]].
  - exists (int16_t (strtol text)).
    rewrite encoder_INT2OID, bind_c_str. split; [reflexivity |].
    split; [apply to_signed_range | apply to_signed_congruent]; lia.
  - exists (int32_t (strtol text)).
    rewrite encoder_INT4OID, encoder_OIDOID, !bind_c_str.
    split; [reflexivity |]. split; [reflexivity |].
    split; [apply to_signed_range | apply to_signed_congruent]; lia.
  - pose proof (strto_range 64 text ltac:(lia)) as Hrange.
    rewrite encoder_INT8OID, bind_c_str. unfold int64_t.
    fold (strtoll text) in Hrange.
    rewrite to_signed_in_range by (assumption || lia).
    split; [reflexivity | exact Hrange].
  - apply strto_range. pose proof LONG_BIT_min. lia.
Qed.

(** X4. An integer text too large for [long] is clamped by [strtol] and
    then truncated by the cast: in an [int2] column it becomes -1 (0 when
    it is too small), not an error and not a bound of the column type;
    likewise in an [int4] column when [long] has more than 32 bits.  In
    an [int8] column a text beyond 64 bits becomes the nearest bound. *)
Theorem integer_overflow
    (sig : ascii) (ws : string) (sg : Sign) (digits rest : string) :
  all_space ws = true ->
  digits <> EmptyString ->
  all_digits digits = true ->
  trailing rest ->
  let z := signed sg (decimal_value digits) in
  let text := (ws ++ sign_text sg ++ digits ++ rest)%string in
  (2 ^ (LONG_BIT - 1) <= z ->
     sd_bus_message_append_pgsql_value sig INT2OID (Some text) =
     sd_bus_message_append_basic sig (Int16 (-1)) /\
     (32 < LONG_BIT ->
      sd_bus_message_append_pgsql_value sig INT4OID (Some text) =
      sd_bus_message_append_basic sig (Int32 (-1)))) /\
  (z < - 2 ^ (LONG_BIT - 1) ->
     sd_bus_message_append_pgsql_value sig INT2OID (Some text) =
     sd_bus_message_append_basic sig (Int16 0) /\
     (32 < LONG_BIT ->
      sd_bus_message_append_pgsql_value sig INT4OID (Some text) =
      sd_bus_message_append_basic sig (Int32 0))) /\
  (2 ^ 63 <= z ->
     sd_bus_message_append_pgsql_value sig INT8OID (Some text) =
     sd_bus_message_append_basic sig (Int64 (2 ^ 63 - 1))) /\
  (z < - 2 ^ 63 ->
     sd_bus_message_append_pgsql_value sig INT8OID (Some text) =
     sd_bus_message_append_basic sig (Int64 (- 2 ^ 63))).
Proof.
  intros Hws Hne Hdigits Hrest z text; subst text.
  pose proof LONG_BIT_min as Hlong.
  assert (Hhalf : 0 < 2 ^ (LONG_BIT - 1)) by (apply pow2_pos; lia).
  assert (Hstrto : forall bits : Z,
            strto bits (ws ++ sign_text sg ++ digits ++ rest) =
            if z <? - 2 ^ (bits - 1) then - 2 ^ (bits - 1)
            else if 2 ^ (bits - 1) - 1 <? z then 2 ^ (bits - 1) - 1
            else z).
  { intros bits. rewrite strto_leading_space by assumption.
    apply strto_integer; assumption. }
  split; [| split; [| split]]; intros Hz.
  - assert (Hlongmax : strtol (ws ++ sign_text sg ++ digits ++ rest) =
                       2 ^ (LONG_BIT - 1) - 1).
    { unfold strtol. rewrite Hstrto.
      destruct (Z.ltb_spec z (- 2 ^ (LONG_BIT - 1))); [lia |].
      destruct (Z.ltb_spec (2 ^ (LONG_BIT - 1) - 1) z); [reflexivity | lia]. }
    split; [| intros Hwide].
    + rewrite encoder_INT2OID, bind_c_str, Hlongmax. unfold int16_t.
      rewrite to_signed_max by lia. reflexivity.
    + rewrite encoder_INT4OID, bind_c_str, Hlongmax. unfold int32_t.
      rewrite to_signed_max by lia. reflexivity.
  - assert (Hlongmin : strtol (ws ++ sign_text sg ++ digits ++ rest) =
                       - 2 ^ (LONG_BIT - 1)).
    { unfold strtol. rewrite Hstrto.
      destruct (Z.ltb_spec z (- 2 ^ (LONG_BIT - 1))); [reflexivity | lia]. }
    split; [| intros Hwide].
    + rewrite encoder_INT2OID, bind_c_str, Hlongmin. unfold int16_t.
      rewrite to_signed_min by lia. reflexivity.
    + rewrite encoder_INT4OID, bind_c_str, Hlongmin. unfold int32_t.
      rewrite to_signed_min by lia. reflexivity.
  - rewrite encoder_INT8OID, bind_c_str. unfold strtoll. rewrite Hstrto.
    change (64 - 1) with 63.
    destruct (Z.ltb_spec z (- 2 ^ 63)); [lia |].
    destruct (Z.ltb_spec (2 ^ 63 - 1) z); [| lia].
    unfold int64_t. rewrite to_signed_in_range; [reflexivity | lia |].
    unfold in_range. change (64 - 1) with 63. lia.
  - rewrite encoder_INT8OID, bind_c_str. unfold strtoll. rewrite Hstrto.
    change (64 - 1) with 63.
    destruct (Z.ltb_spec z (- 2 ^ 63)); [| lia].
    unfold int64_t. rewrite to_signed_in_range; [reflexivity | lia |].
    unfold in_range. change (64 - 1) with 63. lia.
Qed.

(** X5. A text without any digit, the empty text included, in an integer
    column is encoded as 0: the encoder does not tell it from the text
    of the number zero. *)
Theorem integer_without_digits (sig : ascii) (text : string) :
  no_digit text = true ->
  sd_bus_message_append_pgsql_value sig INT2OID (Some text) =
  sd_bus_message_append_basic sig (Int16 0) /\
  sd_bus_message_append_pgsql_value sig INT4OID (Some text) =
  sd_bus_message_append_basic sig (Int32 0) /\
  sd_bus_message_append_pgsql_value sig OIDOID (Some text) =
  sd_bus_message_append_basic sig (Int32 0) /\
  sd_bus_message_append_pgsql_value sig INT8OID (Some text) =
  sd_bus_message_append_basic sig (Int64 0).
Proof.
  intros Htext. pose proof LONG_BIT_min as Hlong.
  rewrite encoder_INT2OID, encoder_INT4OID, encoder_OIDOID, encoder_INT8OID,
    !bind_c_str.
  unfold strtol, strtoll. rewrite !strto_no_digit by (assumption || lia).
  repeat split.
Qed.

End IntegersMore.

(** X6. The text ["%d"] writes for a port that fits [uint16_t] has at
    most five characters: with its terminating NUL it fits the six bytes
    of the buffer [port] of both handlers. *)
Theorem port_text_fits (p : Z) :
  0 <= p < 2 ^ 16 -> (String.length (sprintf_d p) <= 5)%nat.
Proof.
  intros Hp. apply (check_port_texts_sound (Z.to_nat (2 ^ 16)) 0).
  - vm_compute. reflexivity.
  - rewrite Z2Nat.id by lia. lia.
Qed.

(* ================================================================== *)
(** * The paths of [method_query]                                      *)
(* ================================================================== *)

Lemma quiet_ret {A : Type} (a : A) : quiet (ret a).
Proof. intros e w; reflexivity. Qed.

Lemma quiet_return_ {A : Type} (rc : Z) : quiet (@return_ A rc).
Proof. intros e w; reflexivity. Qed.

Lemma quiet_fault {A : Type} : quiet (@fault A).
Proof. intros e w; reflexivity. Qed.

Lemma quiet_check (rc : Z) : quiet (check rc).
Proof. unfold check. destruct (rc <? 0); [apply quiet_return_ | apply quiet_ret]. Qed.

Lemma quiet_c_str (p : option string) : quiet (c_str p).
Proof. destruct p; [apply quiet_ret | apply quiet_fault]. Qed.

Lemma quiet_sd_bus_call
    (msg : option sd_bus_message -> option sd_bus_message) :
  quiet (sd_bus_call [] msg).
Proof. intros e w. cbn. apply app_nil_r. Qed.

Lemma quiet_bind {A B : Type} (m : M A) (k : A -> M B) :
  quiet m -> (forall a : A, quiet (k a)) -> quiet (bind m k).
Proof.
  intros Hm Hk e w. unfold bind. specialize (Hm e w).
  destruct (m e w) as [[a | rc |] w1]; cbn [snd] in *; try exact Hm.
  rewrite Hk. exact Hm.
Qed.

Lemma quiet_new_method_return : quiet sd_bus_message_new_method_return.
Proof. intros e w. cbn. apply app_nil_r. Qed.

Ltac quiet_step :=
  first
    [ apply quiet_bind; [| intro]
    | apply quiet_new_method_return
    | apply quiet_ret
    | apply quiet_return_
    | apply quiet_fault
    | apply quiet_check
    | apply quiet_c_str
    | apply quiet_sd_bus_call
    | match goal with
      | |- quiet (match ?x with _ => _ end) => destruct x
      end ].

Ltac quiet_calls :=
  unfold sd_bus_message_open_container,
    sd_bus_message_append_s, sd_bus_message_append_basic,
    sd_bus_message_close_container;
  repeat quiet_step.

Section Paths.
Context {T : pg_type_d} {L : limits_h}.

Lemma quiet_encoder (sig : ascii) (oid : Oid) (value : option string) :
  quiet (sd_bus_message_append_pgsql_value sig oid value).
Proof. unfold sd_bus_message_append_pgsql_value. quiet_calls. Qed.

Lemma quiet_append_field (res : PGresult) (i : nat) :
  quiet (append_field res i).
Proof.
  unfold append_field. cbv zeta.
  repeat (apply quiet_bind; [| intro]);
    first [apply quiet_encoder | quiet_calls].
Qed.

Lemma quiet_append_fields (res : PGresult) (n i : nat) :
  quiet (append_fields res i n).
Proof.
  revert i; induction n as [| n IH]; intros i; cbn [append_fields].
  - apply quiet_ret.
  - apply quiet_bind; [apply quiet_append_field | intros _; apply IH].
Qed.

(** Splits the nested sequence of a handler at each step. *)
Ltac split_steps :=
  repeat match goal with
         | |- context [let (_, _) := ?x in _] => destruct x as [[? | ? |] ?]
         end.

(** After a successful query [method_query] is the two phases in
    sequence. *)
Lemma method_query_tuples
    (query : string) (rest : method_call) (e : environment) (w : world)
    (res : PGresult) (message : string) :
  status (PQconnect_answer e (host (userdata w))
            (sprintf_d (port (userdata w)))) = CONNECTION_OK ->
  PQexec_answer e query = (res, message) ->
  resultStatus res = PGRES_TUPLES_OK ->
  method_query (Arg "s" query :: rest) e w =
  bind (build_reply res) (fun _ => release_and_send) e (queried w query).
Proof.
  intros Hok Hexec Hres.
  unfold method_query, bind, get_userdata, reply_NULL, PQconnectdbParams,
    fprintf_stderr, emit, ask, bind, c_str, ret, sd_bus_message_read_s.
  cbn [Ascii.eqb Bool.eqb Z.ltb Z.compare userdata trace reply sd_bus_calls].
  rewrite Hok.
  unfold PQexec, bind, emit, ask. rewrite Hexec, Hres.
  cbn [userdata trace reply sd_bus_calls].
  unfold queried, connecting. rewrite <- !app_assoc. cbn [app].
  unfold build_reply, release_and_send, bind.
  split_steps; reflexivity.
Qed.

Lemma quiet_build_reply (res : PGresult) : quiet (build_reply res).
Proof.
  unfold build_reply.
  repeat first [apply quiet_append_fields | progress quiet_calls].
Qed.

Lemma release_and_send_run (e : environment) (w : world) :
  release_and_send e w =
  (Return (sd_bus_answer e (sd_bus_calls w)),
   {| userdata := userdata w;
      trace := trace w ++ [pq_clear; pq_finish; bus_send (reply w)];
      reply := reply w;
      sd_bus_calls := S (sd_bus_calls w) |}).
Proof.
  unfold release_and_send, PQclear, PQfinish, sd_bus_send, sd_bus_call, emit,
    bind, return_.
  cbn [userdata trace reply sd_bus_calls]. rewrite <- !app_assoc. reflexivity.
Qed.

Lemma read_cases (m : method_call) :
  sd_bus_message_read_s m = (- ENXIO, None) \/
  exists (query : string) (rest : method_call), m = Arg "s" query :: rest.
Proof.
  destruct m as [| [type content] rest]; cbn [sd_bus_message_read_s].
  - left; reflexivity.
  - destruct (Ascii.eqb_spec type "s") as [-> | _].
    + right; eexists; eexists; reflexivity.
    + left; reflexivity.
Qed.

(** The calls [method_query] adds to the trace follow one of five
    paths: the argument is refused; the connection fails; the query
    fails; the reply is abandoned while it is built; the reply is
    sent. *)
Lemma method_query_paths (m : method_call) (e : environment) (w : world) :
  let c := userdata w in
  let h := host c in
  let p := sprintf_d (port c) in
  exists new : list event,
    trace (snd (method_query m e w)) = (trace w ++ new)%list /\
    (new = [bus_reply_error SD_BUS_ERROR_INVALID_ARGS
              "Expected interface parameter"] \/
     (exists line : string,
        new = [connecting c; pq_connectdb h p; stderr_line line;
               pq_finish; bus_reply_return None None]) \/
     (exists query line : string,
        new = [connecting c; pq_connectdb h p; pq_exec query;
               stderr_line line; pq_clear; pq_finish;
               bus_reply_return None None]) \/
     (exists query line : string,
        new = [connecting c; pq_connectdb h p; pq_exec query;
               stderr_line line]) \/
     (exists (query line : string) (r : option sd_bus_message),
        new = [connecting c; pq_connectdb h p; pq_exec query;
               stderr_line line; pq_clear; pq_finish; bus_send r])).
Proof.
  intros c h p; subst c h p.
  destruct (read_cases m) as [Hread | (query & rest & ->)].
  { unfold method_query. rewrite Hread.
    eexists; split; [reflexivity |]. left; reflexivity. }
  destruct (status (PQconnect_answer e (host (userdata w))
                      (sprintf_d (port (userdata w))))) eqn:Hstatus.
  2:{ rewrite (query_connection_bad query rest e w Hstatus).
      eexists; split; [reflexivity |]. right; left. eexists; reflexivity. }
  destruct (PQexec_answer e query) as [res message] eqn:Hexec.
  assert (Hcases : resultStatus res = PGRES_TUPLES_OK \/
                   resultStatus res <> PGRES_TUPLES_OK)
    by (destruct (resultStatus res); (left; reflexivity) || (right; discriminate)).
  destruct Hcases as [Hres | Hres].
  2:{ pose proof (query_execution_failed query rest e w Hstatus) as Hrun.
      cbv zeta in Hrun. rewrite Hexec in Hrun. rewrite (Hrun Hres).
      eexists; split; [reflexivity |]. right; right; left.
      eexists; eexists; reflexivity. }
  rewrite (method_query_tuples query rest e w res message Hstatus Hexec Hres).
  unfold bind. pose proof (quiet_build_reply res e (queried w query)) as Hquiet.
  destruct (build_reply res e (queried w query)) as [[[] | rc |] w2];
    cbn [snd] in *.
  - rewrite release_and_send_run. cbn [snd trace]. rewrite Hquiet.
    unfold queried; cbn [trace]. rewrite <- app_assoc.
    eexists; split; [reflexivity |]. right; right; right; right.
    eexists; eexists; eexists; reflexivity.
  - rewrite Hquiet. unfold queried; cbn [trace].
    eexists; split; [reflexivity |]. right; right; right; left.
    eexists; eexists; reflexivity.
  - rewrite Hquiet. unfold queried; cbn [trace].
    eexists; split; [reflexivity |]. right; right; right; left.
    eexists; eexists; reflexivity.
Qed.

End Paths.

(* ================================================================== *)
(** * Building the reply                                               *)
(* ================================================================== *)

Lemma built_nil (w : world) : built w [] 0 = w.
Proof.
  destruct w as [u t [r |] n]; unfold built; cbn;
    rewrite ?app_nil_r; reflexivity.
Qed.

Lemma built_built (w : world) (ops1 ops2 : list msg_op) (n1 n2 : nat) :
  built (built w ops1 n1) ops2 n2 = built w (ops1 ++ ops2) (n2 + n1).
Proof.
  unfold built; cbn [userdata trace reply sd_bus_calls].
  destruct (reply w); rewrite ?app_assoc, Nat.add_assoc; reflexivity.
Qed.

Lemma skipn_cons {A : Type} (i : nat) (l l' : list A) (x : A) :
  skipn i l = x :: l' -> nth_error l i = Some x /\ skipn (S i) l = l'.
Proof.
  revert l; induction i as [| i IH]; intros l Hl.
  - cbn in Hl; subst l. split; reflexivity.
  - destruct l as [| y l]; [discriminate Hl |]. cbn [skipn] in Hl.
    destruct (IH l Hl) as [Hnth Hskip]. split; assumption.
Qed.

Section Steps.
Variable e : environment.
Hypothesis bus_ok : forall n : nat, 0 <= sd_bus_answer e n.

Lemma answer_ok (n : nat) : (sd_bus_answer e n <? 0) = false.
Proof. apply Z.ltb_ge, bus_ok. Qed.

Lemma check_ok (n : nat) : check (sd_bus_answer e n) = ret tt.
Proof.
  unfold check. destruct (Z.ltb_spec (sd_bus_answer e n) 0);
    [pose proof (bus_ok n); lia | reflexivity].
Qed.

(** A successful call that appends [op], its check, and what follows. *)
Lemma step_ok {A : Type} (op : msg_op) (k : M A) (w : world) :
  bind (sd_bus_call [] (build op)) (fun rc => bind (check rc) (fun _ => k)) e w =
  k e (built w [op] 1).
Proof.
  unfold bind at 1, sd_bus_call. rewrite check_ok.
  unfold bind, ret, built, build. rewrite app_nil_r. reflexivity.
Qed.

Lemma last_step_ok (op : msg_op) (w : world) :
  bind (sd_bus_call [] (build op)) (fun rc => check rc) e w =
  (Next tt, built w [op] 1).
Proof.
  unfold bind at 1, sd_bus_call. rewrite check_ok.
  unfold ret, built, build. rewrite app_nil_r. reflexivity.
Qed.

End Steps.

Section Building.
Context {T : pg_type_d} {L : limits_h}.
Variable e : environment.
Hypothesis bus_ok : forall n : nat, 0 <= sd_bus_answer e n.

Lemma append_field_opening
    (res : PGresult) (i : nat) (name : string) (oid : Oid) (w : world) :
  nth_error (attDescs res) i = Some (name, oid) ->
  append_field res i e w =
  bind (sd_bus_message_append_pgsql_value (oid_to_signature oid) oid
          (PQgetvalue res 0 i))
       (fun rc => check rc;;
                  rc <- sd_bus_message_close_container;;
                  check rc;;
                  rc <- sd_bus_message_close_container;;
                  check rc)
       e
       (built w [open_container "e" "sv"; append_s (Some name);
                 open_container "v" (String (oid_to_signature oid) EmptyString)]
          3).
Proof.
  intros Hnth. unfold append_field, PQftype, PQfname. rewrite Hnth. cbv zeta.
  unfold sd_bus_message_open_container, sd_bus_message_append_s.
  rewrite !(step_ok e bus_ok), !built_built. reflexivity.
Qed.

Lemma append_field_known
    (res : PGresult) (i : nat) (name : string) (oid : Oid) (text : string)
    (p : basic) (w : world) :
  nth_error (attDescs res) i = Some (name, oid) ->
  PQgetvalue res 0 i = Some text ->
  scalar oid text = Some p ->
  append_field res i e w = (Next tt, built w (entry name oid text) 6).
Proof.
  intros Hnth Hvalue Hp.
  rewrite (append_field_opening res i name oid w Hnth), Hvalue.
  rewrite encoder_scalar, Hp.
  unfold sd_bus_message_append_basic, sd_bus_message_close_container.
  rewrite !(step_ok e bus_ok), (last_step_ok e bus_ok), !built_built.
  unfold entry. rewrite Hp. reflexivity.
Qed.

Lemma PQgetvalue_row0 (res : PGresult) (i : nat) :
  PQgetvalue res 0 i = nth_error (row0 res) i.
Proof.
  unfold PQgetvalue, row0. destruct (tuples res) as [| r rows]; cbn.
  - destruct i; reflexivity.
  - reflexivity.
Qed.

Lemma append_fields_known (res : PGresult) :
  forall (cols : list (string * Oid)) (row : list string) (i : nat) (w : world),
    skipn i (attDescs res) = cols ->
    skipn i (row0 res) = row ->
    (List.length cols <= List.length row)%nat ->
    Forall (fun col => In (snd col) known_oids) cols ->
    append_fields res i (List.length cols) e w =
    (Next tt, built w (entries cols row) (6 * List.length cols)).
Proof.
  intros cols; induction cols as [| [name oid] cols IH];
    intros row i w Hcols Hrow Hlen Hknown.
  - cbn. rewrite built_nil. reflexivity.
  - destruct row as [| text row]; [cbn in Hlen; lia |].
    apply skipn_cons in Hcols as [Hnth Hcols].
    apply skipn_cons in Hrow as [Hvalue Hrow].
    apply Forall_cons_iff in Hknown as [Hoid Hknown']. cbn [snd] in Hoid.
    destruct (scalar_known oid text Hoid) as (p & Hp & _).
    cbn [List.length append_fields]. unfold bind.
    rewrite (append_field_known res i name oid text p w Hnth);
      [| rewrite PQgetvalue_row0; exact Hvalue | exact Hp].
    rewrite (IH row (S i) _ Hcols Hrow);
      [| cbn in Hlen; lia | exact Hknown'].
    rewrite built_built. unfold entries; cbn [combine flat_map fst snd].
    f_equal. f_equal. lia.
Qed.

Lemma append_field_unlisted
    (res : PGresult) (i : nat) (name : string) (oid : Oid) (w : world) :
  nth_error (attDescs res) i = Some (name, oid) ->
  ~ In oid known_oids ->
  append_field res i e w =
  (Return (-1),
   built w [open_container "e" "sv"; append_s (Some name);
            open_container "v" "s"] 3).
Proof.
  intros Hnth Hout.
  rewrite (append_field_opening res i name oid w Hnth).
  rewrite (encoder_default _ oid _ Hout), (oid_to_signature_default oid Hout).
  reflexivity.
Qed.

Lemma append_fields_unlisted (res : PGresult) (name : string) (oid : Oid)
    (cols2 : list (string * Oid)) :
  ~ In oid known_oids ->
  forall (cols1 : list (string * Oid)) (row : list string) (i : nat) (w : world),
    skipn i (attDescs res) = (cols1 ++ (name, oid) :: cols2)%list ->
    skipn i (row0 res) = row ->
    (List.length cols1 <= List.length row)%nat ->
    Forall (fun col => In (snd col) known_oids) cols1 ->
    append_fields res i (List.length (cols1 ++ (name, oid) :: cols2)) e w =
    (Return (-1),
     built w (entries cols1 row ++
              [open_container "e" "sv"; append_s (Some name);
               open_container "v" "s"])
       (6 * List.length cols1 + 3)).
Proof.
  intros Hout cols1; induction cols1 as [| [name1 oid1] cols1 IH];
    intros row i w Hcols Hrow Hlen Hknown.
  - cbn [app] in Hcols. apply skipn_cons in Hcols as [Hnth _].
    cbn [app List.length append_fields]. unfold bind.
    rewrite (append_field_unlisted res i name oid w Hnth Hout).
    reflexivity.
  - destruct row as [| text row]; [cbn in Hlen; lia |].
    cbn [app] in Hcols.
    apply skipn_cons in Hcols as [Hnth Hcols].
    apply skipn_cons in Hrow as [Hvalue Hrow].
    apply Forall_cons_iff in Hknown as [Hoid Hknown']. cbn [snd] in Hoid.
    destruct (scalar_known oid1 text Hoid) as (p & Hp & _).
    cbn [app List.length append_fields]. unfold bind.
    rewrite (append_field_known res i name1 oid1 text p w Hnth);
      [| rewrite PQgetvalue_row0; exact Hvalue | exact Hp].
    rewrite (IH row (S i) _ Hcols Hrow);
      [| cbn in Hlen; lia | exact Hknown'].
    rewrite built_built. unfold entries; cbn [combine flat_map fst snd].
    rewrite <- app_assoc.
    f_equal. f_equal. lia.
Qed.



(** The first phase when every column has a listed type and row 0 holds
    a value for each. *)
Lemma build_reply_known (res : PGresult) (w : world) :
  (List.length (attDescs res) <= List.length (row0 res))%nat ->
  Forall (fun col => In (snd col) known_oids) (attDescs res) ->
  build_reply res e w =
  (Next tt,
   {| userdata := userdata w;
      trace := trace w;
      reply := Some (mapping (attDescs res) (row0 res));
      sd_bus_calls := 6 * List.length (attDescs res) + 3 + sd_bus_calls w |}).
Proof.
  intros Hlen Hknown. unfold build_reply, PQnfields.
  unfold bind at 1, sd_bus_message_new_method_return at 1, sd_bus_call at 1.
  rewrite (answer_ok e bus_ok), (check_ok e bus_ok). unfold bind at 1, ret at 1.
  unfold sd_bus_message_open_container. rewrite (step_ok e bus_ok).
  unfold bind at 1.
  rewrite (append_fields_known res (attDescs res) (row0 res) 0 _
             eq_refl eq_refl Hlen Hknown).
  unfold sd_bus_message_close_container.
  rewrite (last_step_ok e bus_ok), !built_built.
  unfold built, mapping; cbn [userdata trace reply sd_bus_calls app].
  rewrite app_nil_r. f_equal. f_equal. lia.
Qed.

(** X7. A successful query whose columns all have listed types, the
    sd-bus calls succeeding: the reply sent is the array with one
    dictionary entry per column, in column order, each holding the column
    name and the value of row 0 converted as the column type demands;
    the result is cleared and the connection finished before the reply is
    sent, and the handler returns the code of [sd_bus_send]. *)
Theorem query_reply
    (query : string) (rest : method_call) (w : world)
    (res : PGresult) (message : string) :
  status (PQconnect_answer e (host (userdata w))
            (sprintf_d (port (userdata w)))) = CONNECTION_OK ->
  PQexec_answer e query = (res, message) ->
  resultStatus res = PGRES_TUPLES_OK ->
  (List.length (attDescs res) <= List.length (row0 res))%nat ->
  Forall (fun col => In (snd col) known_oids) (attDescs res) ->
  method_query (Arg "s" query :: rest) e w =
  (Return (sd_bus_answer e
             (6 * List.length (attDescs res) + 3 + sd_bus_calls w)),
   {| userdata := userdata w;
      trace := trace w ++
               [connecting (userdata w);
                pq_connectdb (host (userdata w))
                  (sprintf_d (port (userdata w)));
                pq_exec query;
                stderr_line ("query succeed!" ++ LF)%string;
                pq_clear;
                pq_finish;
                bus_send (Some (mapping (attDescs res) (row0 res)))];
      reply := Some (mapping (attDescs res) (row0 res));
      sd_bus_calls :=
        S (6 * List.length (attDescs res) + 3 + sd_bus_calls w) |}).
Proof.
  intros Hok Hexec Hres Hlen Hknown.
  rewrite (method_query_tuples query rest e w res message Hok Hexec Hres).
  unfold bind. rewrite (build_reply_known res _ Hlen Hknown).
  rewrite release_and_send_run.
  unfold queried; cbn [userdata trace reply sd_bus_calls].
  rewrite <- app_assoc. reflexivity.
Qed.

Lemma sent_app (tr1 tr2 : list event) :
  sent (tr1 ++ tr2) = (sent tr1 ++ sent tr2)%list.
Proof.
  induction tr1 as [| ev tr1 IH]; [reflexivity |].
  destruct ev; cbn [app sent]; rewrite IH; reflexivity.
Qed.

Lemma mapping_empty (cols : list (string * Oid)) (row : list string) :
  (List.length cols <= List.length row)%nat ->
  mapping cols row = empty_mapping <-> cols = [].
Proof.
  intros Hlen. split.
  - destruct cols as [| [name oid] cols]; [reflexivity |].
    destruct row as [| text row]; [cbn in Hlen; lia |].
    unfold mapping, entries, entry, empty_mapping.
    cbn [combine flat_map fst snd app]. intros H. discriminate H.
  - intros ->. reflexivity.
Qed.

(** X16. Under the conditions of X7, the reply sent is the empty
    mapping exactly when the result has no column; the number of rows
    plays no part. *)
Theorem empty_reply_iff_no_column
    (query : string) (rest : method_call) (w : world)
    (res : PGresult) (message : string) :
  status (PQconnect_answer e (host (userdata w))
            (sprintf_d (port (userdata w)))) = CONNECTION_OK ->
  PQexec_answer e query = (res, message) ->
  resultStatus res = PGRES_TUPLES_OK ->
  (List.length (attDescs res) <= List.length (row0 res))%nat ->
  Forall (fun col => In (snd col) known_oids) (attDescs res) ->
  exists r : sd_bus_message,
    sent (trace (snd (method_query (Arg "s" query :: rest) e w))) =
    (sent (trace w) ++ [Some r])%list /\
    (r = empty_mapping <-> attDescs res = []).
Proof.
  intros Hok Hexec Hres Hlen Hknown.
  rewrite (method_query_tuples query rest e w res message Hok Hexec Hres).
  unfold bind. rewrite (build_reply_known res _ Hlen Hknown).
  rewrite release_and_send_run.
  unfold queried; cbn [snd userdata trace reply sd_bus_calls].
  rewrite !sent_app. unfold connecting; cbn [sent]. rewrite app_nil_r.
  eexists; split; [reflexivity |]. apply mapping_empty, Hlen.
Qed.

(** X8. A successful query with a column of an unlisted type, the
    columns before it having listed types and values: [method_query]
    returns -1 once it reaches that column.  It has sent nothing, the
    reply stays half built with the variant of that column open, and the
    result and the connection are not released. *)
Theorem query_unlisted_column
    (query : string) (rest : method_call) (w : world)
    (res : PGresult) (message : string)
    (cols1 cols2 : list (string * Oid)) (name : string) (oid : Oid) :
  status (PQconnect_answer e (host (userdata w))
            (sprintf_d (port (userdata w)))) = CONNECTION_OK ->
  PQexec_answer e query = (res, message) ->
  resultStatus res = PGRES_TUPLES_OK ->
  attDescs res = (cols1 ++ (name, oid) :: cols2)%list ->
  Forall (fun col => In (snd col) known_oids) cols1 ->
  ~ In oid known_oids ->
  (List.length cols1 <= List.length (row0 res))%nat ->
  method_query (Arg "s" query :: rest) e w =
  (Return (-1),
   {| userdata := userdata w;
      trace := trace w ++
               [connecting (userdata w);
                pq_connectdb (host (userdata w))
                  (sprintf_d (port (userdata w)));
                pq_exec query;
                stderr_line ("query succeed!" ++ LF)%string];
      reply := Some (open_container "a" "{sv}"
                     :: entries cols1 (row0 res)
                     ++ [open_container "e" "sv"; append_s (Some name);
                         open_container "v" "s"]);
      sd_bus_calls := 6 * List.length cols1 + 5 + sd_bus_calls w |}).
Proof.
  intros Hok Hexec Hres Hcols Hknown Hout Hlen.
  rewrite (method_query_tuples query rest e w res message Hok Hexec Hres).
  unfold bind at 1, build_reply, PQnfields.
  unfold bind at 1, sd_bus_message_new_method_return at 1, sd_bus_call at 1.
  rewrite (answer_ok e bus_ok), (check_ok e bus_ok). unfold bind at 1, ret at 1.
  unfold sd_bus_message_open_container. rewrite (step_ok e bus_ok).
  unfold bind at 1. rewrite Hcols.
  rewrite (append_fields_unlisted res name oid cols2 Hout cols1 (row0 res) 0 _
             Hcols eq_refl Hlen Hknown).
  rewrite built_built.
  unfold built, queried; cbn [userdata trace reply sd_bus_calls app].
  rewrite app_nil_r. f_equal. f_equal. lia.
Qed.


End Building.

(* ================================================================== *)
(** * Requests as a whole                                              *)
(* ================================================================== *)

Section Requests.
Context {T : pg_type_d} {L : limits_h}.

(** X10. Every run of [method_query] ends in one of two ways.  Either
    it answers the call: exactly one reply call, made last, with every
    connection it opened finished and every result cleared.  Or it makes
    no reply call at all and leaves one connection and one result
    open. *)
Theorem query_answers_or_leaks
    (m : method_call) (e : environment) (w : world) :
  exists new : list event,
    trace (snd (method_query m e w)) = (trace w ++ new)%list /\
    ((exists (body : list event) (last : event),
        new = (body ++ [last])%list /\
        is_reply last = true /\
        filter is_reply body = [] /\
        connections_open new = 0 /\
        results_open new = 0) \/
     (filter is_reply new = [] /\
      connections_open new = 1 /\
      results_open new = 1)).
Proof.
  destruct (method_query_paths m e w) as (new & Htrace & Hpath).
  exists new. split; [exact Htrace |].
  destruct Hpath as [-> | [(line & ->) | [(query & line & ->)
                    | [(query & line & ->) | (query & line & r & ->)]]]].
  - left. exists [], (bus_reply_error SD_BUS_ERROR_INVALID_ARGS
                       "Expected interface parameter").
    repeat split.
  - left. eexists [_; _; _; _], _. repeat split.
  - left. eexists [_; _; _; _; _; _], _. repeat split.
  - right. repeat split.
  - left. eexists [_; _; _; _; _; _], _. repeat split.
Qed.

Lemma query_connected
    (query : string) (rest : method_call) (e : environment) (w : world) :
  let c := userdata w in
  status (PQconnect_answer e (host c) (sprintf_d (port c))) = CONNECTION_OK ->
  exists (line : string) (tail : list event),
    trace (snd (method_query (Arg "s" query :: rest) e w)) =
    (trace w ++
     [connecting c; pq_connectdb (host c) (sprintf_d (port c));
      pq_exec query; stderr_line line] ++ tail)%list /\
    (tail = [] \/
     tail = [pq_clear; pq_finish; bus_reply_return None None] \/
     exists r : option sd_bus_message, tail = [pq_clear; pq_finish; bus_send r]).
Proof.
  intros c Hstatus; subst c.
  destruct (PQexec_answer e query) as [res message] eqn:Hexec.
  assert (Hcases : resultStatus res = PGRES_TUPLES_OK \/
                   resultStatus res <> PGRES_TUPLES_OK)
    by (destruct (resultStatus res); (left; reflexivity) || (right; discriminate)).
  destruct Hcases as [Hres | Hres].
  2:{ pose proof (query_execution_failed query rest e w Hstatus) as Hrun.
      cbv zeta in Hrun. rewrite Hexec in Hrun. rewrite (Hrun Hres).
      eexists; eexists; split; [reflexivity |]. right; left; reflexivity. }
  rewrite (method_query_tuples query rest e w res message Hstatus Hexec Hres).
  unfold bind. pose proof (quiet_build_reply res e (queried w query)) as Hquiet.
  destruct (build_reply res e (queried w query)) as [[[] | rc |] w2];
    cbn [snd] in *.
  - rewrite release_and_send_run. cbn [snd trace]. rewrite Hquiet.
    unfold queried; cbn [trace]. rewrite <- app_assoc.
    eexists; eexists; split; [reflexivity |]. right; right.
    eexists; reflexivity.
  - rewrite Hquiet. unfold queried; cbn [trace].
    eexists; exists []; split; [reflexivity |]. left; reflexivity.
  - rewrite Hquiet. unfold queried; cbn [trace].
    eexists; exists []; split; [reflexivity |]. left; reflexivity.
Qed.

Lemma pq_calls_app (tr1 tr2 : list event) :
  pq_calls (tr1 ++ tr2) = (pq_calls tr1 ++ pq_calls tr2)%list.
Proof. apply filter_app. Qed.

(** X11. Once the connection is established, [method_query] hands the
    text of the request to [PQexec] as it received it, exactly once, on
    a single connection to the host and port of the context; the only
    calls into libpq that may follow are the two that release the result
    and the connection. *)
Theorem query_text_verbatim
    (query : string) (rest : method_call) (e : environment) (w : world) :
  let c := userdata w in
  status (PQconnect_answer e (host c) (sprintf_d (port c))) = CONNECTION_OK ->
  exists tail : list event,
    pq_calls (trace (snd (method_query (Arg "s" query :: rest) e w))) =
    (pq_calls (trace w) ++
     [pq_connectdb (host c) (sprintf_d (port c)); pq_exec query] ++ tail)%list /\
    (tail = [] \/ tail = [pq_clear; pq_finish]).
Proof.
  intros c Hstatus.
  destruct (query_connected query rest e w Hstatus)
    as (line & tail & Htrace & Htail).
  rewrite Htrace, pq_calls_app.
  destruct Htail as [-> | [-> | [r ->]]].
  - exists []. split; [reflexivity | left; reflexivity].
  - exists [pq_clear; pq_finish]. split; [reflexivity | right; reflexivity].
  - exists [pq_clear; pq_finish]. split; [reflexivity | right; reflexivity].
Qed.

(** X12. [method_ping] does the same for every request, whatever its
    arguments: it probes the host and port of the context once, logs one
    line, and answers with the code of the probe as it is, an unknown
    code included.  It opens no connection and sends no error. *)
Theorem ping_reports_probe
    (m : method_call) (e : environment) (w : world) :
  let c := userdata w in
  let rc := PQping_answer e (host c) (sprintf_d (port c)) in
  exists line : string,
    method_ping m e w =
    (Return (sd_bus_answer e (sd_bus_calls w)),
     {| userdata := c;
        trace := trace w ++
                 [pq_ping (host c) (sprintf_d (port c));
                  stderr_line line;
                  bus_reply_return (Some "q"%string) (Some rc)];
        reply := reply w;
        sd_bus_calls := S (sd_bus_calls w) |}).
Proof.
  intros c rc; subst c rc.
  unfold method_ping, bind, get_userdata, PQpingParams, emit, ask, bind.
  cbn [userdata trace reply sd_bus_calls].
  destruct (PQping_answer e (host (userdata w)) (sprintf_d (port (userdata w))));
    unfold fprintf_stderr, emit, sd_bus_reply_method_return, sd_bus_call,
      return_;
    cbn [userdata trace reply sd_bus_calls];
    eexists; rewrite <- !app_assoc; reflexivity.
Qed.

Lemma PQgetvalue_first_row (res : PGresult) (i : nat) :
  PQgetvalue (first_row res) 0 i = PQgetvalue res 0 i.
Proof.
  unfold PQgetvalue, first_row; cbn [tuples].
  destruct (tuples res); reflexivity.
Qed.

Lemma append_field_first_row (res : PGresult) (i : nat) :
  append_field (first_row res) i = append_field res i.
Proof. unfold append_field. rewrite PQgetvalue_first_row. reflexivity. Qed.

Lemma append_fields_first_row (res : PGresult) (n i : nat) :
  append_fields (first_row res) i n = append_fields res i n.
Proof.
  revert i; induction n as [| n IH]; intros i; cbn [append_fields].
  - reflexivity.
  - rewrite append_field_first_row, IH. reflexivity.
Qed.

Lemma build_reply_first_row (res : PGresult) :
  build_reply (first_row res) = build_reply res.
Proof.
  unfold build_reply, PQnfields. cbn [first_row attDescs].
  rewrite append_fields_first_row. reflexivity.
Qed.

Lemma bus_only_ret {A : Type} (a : A) : bus_only (ret a).
Proof. intros e e' w _; reflexivity. Qed.

Lemma bus_only_return_ {A : Type} (rc : Z) : bus_only (@return_ A rc).
Proof. intros e e' w _; reflexivity. Qed.

Lemma bus_only_fault {A : Type} : bus_only (@fault A).
Proof. intros e e' w _; reflexivity. Qed.

Lemma bus_only_check (rc : Z) : bus_only (check rc).
Proof.
  unfold check. destruct (rc <? 0);
    [apply bus_only_return_ | apply bus_only_ret].
Qed.

Lemma bus_only_c_str (p : option string) : bus_only (c_str p).
Proof. destruct p; [apply bus_only_ret | apply bus_only_fault]. Qed.

Lemma bus_only_emit (ev : event) : bus_only (emit ev).
Proof. intros e e' w _; reflexivity. Qed.

Lemma bus_only_sd_bus_call (tr : list event)
    (msg : option sd_bus_message -> option sd_bus_message) :
  bus_only (sd_bus_call tr msg).
Proof. intros e e' w Hbus. unfold sd_bus_call. rewrite Hbus. reflexivity. Qed.

Lemma bus_only_sd_bus_send : bus_only sd_bus_send.
Proof. intros e e' w Hbus. unfold sd_bus_send, sd_bus_call. rewrite Hbus. reflexivity. Qed.

Lemma bus_only_bind {A B : Type} (m : M A) (k : A -> M B) :
  bus_only m -> (forall a : A, bus_only (k a)) -> bus_only (bind m k).
Proof.
  intros Hm Hk e e' w Hbus. unfold bind. rewrite (Hm e e' w Hbus).
  destruct (m e w) as [[a | rc |] w1]; [apply Hk; exact Hbus | reflexivity ..].
Qed.

Lemma bus_only_new_method_return :
  bus_only sd_bus_message_new_method_return.
Proof.
  intros e e' w Hbus. unfold sd_bus_message_new_method_return, sd_bus_call.
  rewrite Hbus. reflexivity.
Qed.

Ltac bus_only_step :=
  first
    [ apply bus_only_bind; [| intro]
    | apply bus_only_new_method_return
    | apply bus_only_ret
    | apply bus_only_return_
    | apply bus_only_fault
    | apply bus_only_check
    | apply bus_only_c_str
    | apply bus_only_emit
    | apply bus_only_sd_bus_send
    | apply bus_only_sd_bus_call
    | match goal with
      | |- bus_only (match ?x with _ => _ end) => destruct x
      end ].

Ltac bus_only_calls :=
  unfold sd_bus_message_open_container,
    sd_bus_message_append_s, sd_bus_message_append_basic,
    sd_bus_message_close_container, PQclear, PQfinish;
  repeat bus_only_step.

Lemma bus_only_encoder (sig : ascii) (oid : Oid) (value : option string) :
  bus_only (sd_bus_message_append_pgsql_value sig oid value).
Proof. unfold sd_bus_message_append_pgsql_value. bus_only_calls. Qed.

Lemma bus_only_append_field (res : PGresult) (i : nat) :
  bus_only (append_field res i).
Proof.
  unfold append_field. cbv zeta.
  repeat (apply bus_only_bind; [| intro]);
    first [apply bus_only_encoder | bus_only_calls].
Qed.

Lemma bus_only_append_fields (res : PGresult) (n i : nat) :
  bus_only (append_fields res i n).
Proof.
  revert i; induction n as [| n IH]; intros i; cbn [append_fields].
  - apply bus_only_ret.
  - apply bus_only_bind; [apply bus_only_append_field | intros _; apply IH].
Qed.

Lemma bus_only_reply_phases (res : PGresult) :
  bus_only (bind (build_reply res) (fun _ => release_and_send)).
Proof.
  unfold build_reply, release_and_send.
  repeat first [apply bus_only_append_fields | progress bus_only_calls].
Qed.

(** X13. Only row 0 of a result is read: [method_query] does the same
    against a server whose results are cut down to their first row. *)
Theorem query_reads_first_row
    (m : method_call) (e : environment) (w : world) :
  method_query m (first_row_only e) w = method_query m e w.
Proof.
  destruct (read_cases m) as [Hread | (query & rest & ->)].
  { unfold method_query. rewrite Hread. reflexivity. }
  destruct (status (PQconnect_answer e (host (userdata w))
                      (sprintf_d (port (userdata w))))) eqn:Hstatus.
  2:{ rewrite (query_connection_bad query rest e w Hstatus).
      rewrite (query_connection_bad query rest (first_row_only e) w Hstatus).
      reflexivity. }
  destruct (PQexec_answer e query) as [res message] eqn:Hexec.
  assert (Hexec' : PQexec_answer (first_row_only e) query =
                   (first_row res, message))
    by (cbn [first_row_only PQexec_answer]; rewrite Hexec; reflexivity).
  assert (Hcases : resultStatus res = PGRES_TUPLES_OK \/
                   resultStatus res <> PGRES_TUPLES_OK)
    by (destruct (resultStatus res); (left; reflexivity) || (right; discriminate)).
  destruct Hcases as [Hres | Hres].
  2:{ pose proof (query_execution_failed query rest e w Hstatus) as Hrun.
      pose proof (query_execution_failed query rest (first_row_only e) w
                    Hstatus) as Hrun'.
      cbv zeta in Hrun, Hrun'. rewrite Hexec in Hrun. rewrite Hexec' in Hrun'.
      rewrite (Hrun Hres), (Hrun' Hres). reflexivity. }
  rewrite (method_query_tuples query rest e w res message Hstatus Hexec Hres).
  rewrite (method_query_tuples query rest (first_row_only e) w (first_row res)
             message Hstatus Hexec' Hres).
  rewrite build_reply_first_row.
  apply bus_only_reply_phases. reflexivity.
Qed.

End Requests.

(* ================================================================== *)
(** * [main]                                                           *)
(* ================================================================== *)

Lemma finished_finish
    (rc : Z) (body : list main_call) (format : string)
    (status : exit_status) (tr : list main_call) :
  Some (finish rc (body ++ [call_fprintf_strerror format (- rc)])) =
  Some (status, tr) ->
  rc < 0 ->
  ~ In call_sd_bus_slot_unref body ->
  ~ In call_sd_bus_unref body ->
  status = EXIT_FAILURE /\ finished tr.
Proof.
  unfold finish; intros Hrun Hrc Hslot Hbus.
  injection Hrun as <- <-. split.
  - apply Z.ltb_lt in Hrc. rewrite Hrc. reflexivity.
  - exists body, format, (- rc). rewrite <- app_assoc.
    repeat split; [lia | exact Hslot | exact Hbus].
Qed.

Lemma not_in_snoc (x y : main_call) (body : list main_call) :
  x <> y -> ~ In x body -> ~ In x (body ++ [y]).
Proof.
  intros Hxy Hbody Hin. apply in_app_or in Hin as [Hin | [Hin | []]].
  - exact (Hbody Hin).
  - exact (Hxy (eq_sym Hin)).
Qed.

Lemma event_loop_finished (answer : nat -> Z) (fuel : nat) :
  forall (k : nat) (tr : list main_call)
         (status : exit_status) (tr' : list main_call),
    ~ In call_sd_bus_slot_unref tr ->
    ~ In call_sd_bus_unref tr ->
    event_loop answer fuel k tr = Some (status, tr') ->
    status = EXIT_FAILURE /\ finished tr'.
Proof.
  induction fuel as [| fuel IH]; intros k tr status tr' Hslot Hbus Hrun;
    [discriminate Hrun |].
  cbn [event_loop] in Hrun. cbv zeta in Hrun.
  assert (Hslot1 : ~ In call_sd_bus_slot_unref (tr ++ [call_sd_bus_process]))
    by (apply not_in_snoc; [discriminate | exact Hslot]).
  assert (Hbus1 : ~ In call_sd_bus_unref (tr ++ [call_sd_bus_process]))
    by (apply not_in_snoc; [discriminate | exact Hbus]).
  destruct (Z.ltb_spec (answer k) 0) as [Hneg | Hpos].
  { apply (finished_finish _ _ _ _ _ Hrun); assumption. }
  destruct (0 <? answer k).
  { exact (IH _ _ _ _ Hslot1 Hbus1 Hrun). }
  assert (Hslot2 : ~ In call_sd_bus_slot_unref
                     ((tr ++ [call_sd_bus_process]) ++ [call_sd_bus_wait]))
    by (apply not_in_snoc; [discriminate | exact Hslot1]).
  assert (Hbus2 : ~ In call_sd_bus_unref
                    ((tr ++ [call_sd_bus_process]) ++ [call_sd_bus_wait]))
    by (apply not_in_snoc; [discriminate | exact Hbus1]).
  destruct (Z.ltb_spec (answer (S k)) 0) as [Hneg | Hpos'].
  { apply (finished_finish _ _ _ _ _ Hrun); assumption. }
  exact (IH _ _ _ _ Hslot2 Hbus2 Hrun).
Qed.

(** X14. Whenever [main] returns, it returns [EXIT_FAILURE]: it never
    exits with success.  By then it has written the reason to stderr,
    with a positive error number, and its last two calls release the
    slot and the bus, each once. *)
Theorem main_exits_with_failure
    (answer : nat -> Z) (fuel : nat)
    (status : exit_status) (tr : list main_call) :
  main answer fuel = Some (status, tr) ->
  status = EXIT_FAILURE /\ finished tr.
Proof.
  unfold main; cbv zeta; intros Hrun.
  destruct (Z.ltb_spec (answer 0%nat) 0) as [Hneg | _].
  { apply (finished_finish _ _ _ _ _ Hrun); [exact Hneg | |];
      cbn; intuition discriminate. }
  destruct (Z.ltb_spec (answer 1%nat) 0) as [Hneg | _].
  { apply (finished_finish _ _ _ _ _ Hrun); [exact Hneg | |];
      cbn; intuition discriminate. }
  destruct (Z.ltb_spec (answer 2%nat) 0) as [Hneg | _].
  { apply (finished_finish _ _ _ _ _ Hrun); [exact Hneg | |];
      cbn; intuition discriminate. }
  apply (event_loop_finished answer fuel _ _ _ _) in Hrun;
    [exact Hrun | |]; cbn; intuition discriminate.
Qed.

Lemma event_loop_running (answer : nat -> Z) (fuel : nat) :
  (forall k : nat, 0 <= answer k) ->
  forall (k : nat) (tr : list main_call), event_loop answer fuel k tr = None.
Proof.
  intros Hok; induction fuel as [| fuel IH]; intros k tr; [reflexivity |].
  cbn [event_loop]; cbv zeta.
  destruct (Z.ltb_spec (answer k) 0); [pose proof (Hok k); lia |].
  destruct (0 <? answer k); [apply IH |].
  destruct (Z.ltb_spec (answer (S k)) 0); [pose proof (Hok (S k)); lia |].
  apply IH.
Qed.

Lemma finish_failure (rc : Z) (tr : list main_call) :
  rc < 0 -> finish rc tr = (EXIT_FAILURE, snd (finish rc tr)).
Proof.
  intros Hrc. unfold finish; cbn [snd].
  apply Z.ltb_lt in Hrc. rewrite Hrc. reflexivity.
Qed.

Lemma event_loop_stops (answer : nat -> Z) (fuel : nat) :
  forall (k j : nat) (tr : list main_call),
    (k <= j < k + fuel)%nat ->
    answer j < 0 ->
    exists tr' : list main_call,
      event_loop answer fuel k tr = Some (EXIT_FAILURE, tr').
Proof.
  induction fuel as [| fuel IH]; intros k j tr Hj Hneg; [lia |].
  cbn [event_loop]; cbv zeta.
  destruct (Z.ltb_spec (answer k) 0);
    [rewrite finish_failure by assumption; eexists; reflexivity |].
  assert (Hjk : j <> k) by (intros ->; lia).
  destruct (0 <? answer k); [apply (IH (S k) j); [lia | exact Hneg] |].
  destruct (Z.ltb_spec (answer (S k)) 0);
    [rewrite finish_failure by assumption; eexists; reflexivity |].
  assert (HjSk : j <> S k) by (intros ->; lia).
  apply (IH (S (S k)) j); [lia | exact Hneg].
Qed.

(** X15. [main] serves for as long as sd-bus succeeds and no longer:
    when no call fails it is still in its loop after any number of
    turns; when the call of some rank fails, [main] has returned after
    at most that many turns. *)
Theorem main_runs_until_failure (answer : nat -> Z) :
  ((forall k : nat, 0 <= answer k) ->
   forall fuel : nat, main answer fuel = None) /\
  (forall j : nat, answer j < 0 ->
   exists tr : list main_call, main answer (S j) = Some (EXIT_FAILURE, tr)).
Proof.
  split.
  - intros Hok fuel. unfold main; cbv zeta.
    destruct (Z.ltb_spec (answer 0%nat) 0); [pose proof (Hok 0%nat); lia |].
    destruct (Z.ltb_spec (answer 1%nat) 0); [pose proof (Hok 1%nat); lia |].
    destruct (Z.ltb_spec (answer 2%nat) 0); [pose proof (Hok 2%nat); lia |].
    apply event_loop_running, Hok.
  - intros j Hneg. unfold main; cbv zeta.
    destruct (Z.ltb_spec (answer 0%nat) 0);
      [rewrite finish_failure by assumption; eexists; reflexivity |].
    destruct (Z.ltb_spec (answer 1%nat) 0);
      [rewrite finish_failure by assumption; eexists; reflexivity |].
    destruct (Z.ltb_spec (answer 2%nat) 0);
      [rewrite finish_failure by assumption; eexists; reflexivity |].
    apply (event_loop_stops answer (S j) 3 j); [| exact Hneg].
    assert (j <> 0%nat) by (intros ->; lia).
    assert (j <> 1%nat) by (intros ->; lia).
    assert (j <> 2%nat) by (intros ->; lia).
    lia.
Qed.

(* ================================================================== *)
(** * Further runs on the concrete platform                            *)
(* ================================================================== *)

Section MoreRuns.
Import Postgres.

(** [numeric] is rejected by the encoder. *)
Lemma unlisted_type_rejected_witness :
  sd_bus_message_append_pgsql_value (T := catalog) (L := lp64)
    "s" NUMERICOID (Some "1.5"%string) server start = (Next (-1), start).
Proof.
  assert (Hout : ~ In NUMERICOID (known_oids (T := catalog)))
    by (cbv; intuition discriminate).
  exact (proj2 (unlisted_type_rejected (T := catalog) (L := lp64)
                  "s" NUMERICOID (Some "1.5"%string) server start Hout)).
Defined.

(** An [int2] value goes into a variant of type [n] as an [int16_t]. *)
Lemma encoder_matches_signature_witness :
  exists p : basic,
    sd_bus_message_append_pgsql_value (T := catalog) (L := lp64)
      "n" 21 (Some "10"%string) =
    sd_bus_message_append_basic "n" p /\
    tag_code (payload_tag p) = "n"%char.
Proof.
  assert (Hin : In 21 (known_oids (T := catalog))) by (cbv; tauto).
  exact (encoder_matches_signature (T := catalog) (L := lp64) 21 "10" Hin).
Defined.

(** Twenty nines in an [int2] column are the integer -1. *)
Lemma integer_overflow_witness :
  sd_bus_message_append_pgsql_value (T := catalog) (L := lp64)
    "n" 21 (Some "99999999999999999999"%string) =
  sd_bus_message_append_basic "n" (Int16 (-1)).
Proof.
  assert (Hws : all_space "" = true) by reflexivity.
  assert (Hne : "99999999999999999999"%string <> EmptyString) by discriminate.
  assert (Hdigits : all_digits "99999999999999999999" = true) by reflexivity.
  assert (Hrest : trailing "") by exact I.
  assert (Hbig : 2 ^ (LONG_BIT (limits_h := lp64) - 1) <=
                 signed Unsigned (decimal_value "99999999999999999999"))
    by (vm_compute; intros H; discriminate H).
  exact (proj1 (proj1 (integer_overflow (T := catalog) (L := lp64)
                         "n" "" Unsigned "99999999999999999999" ""
                         Hws Hne Hdigits Hrest) Hbig)).
Defined.

(** The empty text in an [int4] column is the integer 0. *)
Lemma integer_without_digits_witness :
  sd_bus_message_append_pgsql_value (T := catalog) (L := lp64)
    "i" 23 (Some ""%string) =
  sd_bus_message_append_basic "i" (Int32 0).
Proof.
  assert (Htext : no_digit "" = true) by reflexivity.
  exact (proj1 (proj2 (integer_without_digits (T := catalog) (L := lp64)
                         "i" "" Htext))).
Defined.

(** The port [main] configures. *)
Lemma port_text_fits_witness :
  (String.length (sprintf_d 15433) <= 5)%nat.
Proof.
  assert (Hp : 0 <= 15433 < 2 ^ 16)
    by (split; vm_compute; [intros H; discriminate H | reflexivity]).
  exact (port_text_fits 15433 Hp).
Defined.

(** A result of two rows: the reply holds the two columns of the first. *)
Lemma query_reply_witness :
  sent (trace (snd (method_query (T := catalog) (L := lp64)
                      [Arg "s" "SELECT 7 AS a, 'x' AS t FROM generate_series(1, 2)"]
                      Examples.server start))) =
  [Some (mapping (T := catalog) (L := lp64)
           [("a"%string, 23); ("t"%string, 25)] ["7"%string; "x"%string])].
Proof.
  rewrite (query_reply (T := catalog) (L := lp64) Examples.server
             (fun _ => Z.le_refl 0)
             "SELECT 7 AS a, 'x' AS t FROM generate_series(1, 2)" [] start
             {| resultStatus := PGRES_TUPLES_OK;
                attDescs := [("a"%string, 23); ("t"%string, 25)];
                tuples := [["7"%string; "x"%string]; ["7"%string; "x"%string]] |}
             "" eq_refl eq_refl eq_refl).
  - reflexivity.
  - cbn. lia.
  - repeat constructor; cbv; tauto.
Defined.

(** A [numeric] column after an [int4] column. *)
Lemma query_unlisted_column_witness :
  fst (method_query (T := catalog) (L := lp64)
         [Arg "s" "SELECT 7 AS a, 1.5::numeric AS n, 'x' AS t"]
         Examples.server start) = Return (-1).
Proof.
  rewrite (query_unlisted_column (T := catalog) (L := lp64) Examples.server
             (fun _ => Z.le_refl 0)
             "SELECT 7 AS a, 1.5::numeric AS n, 'x' AS t" [] start
             {| resultStatus := PGRES_TUPLES_OK;
                attDescs := [("a"%string, 23); ("n"%string, 1700);
                             ("t"%string, 25)];
                tuples := [["7"%string; "1.5"%string; "x"%string]] |}
             "" [("a"%string, 23)] [("t"%string, 25)] "n" 1700
             eq_refl eq_refl eq_refl eq_refl).
  - reflexivity.
  - repeat constructor; cbv; tauto.
  - cbv; intuition discriminate.
  - cbn. lia.
Defined.


(** A result with one row and no column. *)
Lemma empty_reply_iff_no_column_witness :
  exists r : sd_bus_message,
    sent (trace (snd (method_query (T := catalog) (L := lp64)
                        [Arg "s" "SELECT"] Examples.server start))) =
    [Some r] /\
    (r = empty_mapping <-> @nil (string * Oid) = []).
Proof.
  assert (Hlen : (List.length (@nil (string * Oid)) <=
                  List.length (@nil string))%nat) by (cbn; lia).
  exact (empty_reply_iff_no_column (T := catalog) (L := lp64) Examples.server
           (fun _ => Z.le_refl 0) "SELECT" [] start
           {| resultStatus := PGRES_TUPLES_OK; attDescs := []; tuples := [[]] |}
           "" eq_refl eq_refl eq_refl Hlen (Forall_nil _)).
Defined.

(** The text of the request reaches [PQexec] as it is. *)
Lemma query_text_verbatim_witness :
  exists tail : list event,
    pq_calls (trace (snd (method_query (T := catalog) (L := lp64)
                            [Arg "s" "SELECT 10::int2 AS blah"] server start))) =
    ([pq_connectdb "/tmp" "15433"; pq_exec "SELECT 10::int2 AS blah"]
     ++ tail)%list /\
    (tail = [] \/ tail = [pq_clear; pq_finish]).
Proof.
  exact (query_text_verbatim (T := catalog) (L := lp64)
           "SELECT 10::int2 AS blah" [] server start eq_refl).
Defined.

(** The bus fails after one request has been served. *)
Lemma main_exits_with_failure_witness :
  EXIT_FAILURE = EXIT_FAILURE /\
  finished
    [call_sd_bus_open_user;
     call_sd_bus_add_object_vtable "/org/postgresql/instance"
       "org.postgresql.instance" {| host := "/tmp"; port := 15433 |};
     call_sd_bus_request_name "org.postgresql.instance";
     call_sd_bus_process; call_sd_bus_process; call_sd_bus_wait;
     call_sd_bus_process;
     call_fprintf_strerror ("Failed to process bus: %s" ++ LF) 104;
     call_sd_bus_slot_unref; call_sd_bus_unref].
Proof.
  exact (main_exits_with_failure Examples.bus 3 _ _ eq_refl).
Defined.

Lemma main_runs_until_failure_witness :
  exists tr : list main_call, main Examples.bus 7 = Some (EXIT_FAILURE, tr).
Proof.
  assert (Hneg : Examples.bus 6 < 0) by reflexivity.
  exact (proj2 (main_runs_until_failure Examples.bus) 6%nat Hneg).
Defined.

End MoreRuns.
